(** * json-to-sqlite: schema inference and normalisation of JSON documents

    A shallow embedding of [json-to-sqlite.py] (class [JsonToSqlite]) and
    the properties of its identifier sanitizer, value classifier, schema
    registry and record writer.

    Conventions of the embedding.
    - A Python [str] is a [string]: one [ascii] per code point, so the
      embedding covers the code points 0..255.
    - A parsed document is a [json] tree; the items of a Python [dict] are
      the association list of a [JObject], in insertion order.
    - The converter object ([self]) is the record [converter]; every method
      is a function in the monad [M] that threads the converter and either
      returns a value or raises an exception.  A raised exception keeps the
      state reached so far: the program never rolls anything back.
    - The storage engine is reached through three statements (CREATE TABLE
      IF NOT EXISTS, ALTER TABLE ADD COLUMN, INSERT); [Module Engine] gives
      them a small executable meaning. *)

From Stdlib Require Import String Ascii List ZArith Lia Bool.
From stdpp Require Import base option gmap sets list strings.

#[local] Open Scope string_scope.
#[local] Open Scope Z_scope.

(** ** Characters and strings as Python sees them *)

Module Py.

(** [c.isalnum()] on the code points 0..255. *)
Definition isalnum (c : ascii) : bool :=
  let n := N_of_ascii c in
  ((48 <=? n) && (n <=? 57) || (65 <=? n) && (n <=? 90)
   || (97 <=? n) && (n <=? 122)
   || (n =? 170) || (n =? 178) || (n =? 179) || (n =? 181)
   || (n =? 185) || (n =? 186) || (188 <=? n) && (n <=? 190)
   || (192 <=? n) && (n <=? 214) || (216 <=? n) && (n <=? 246)
   || (248 <=? n))%N.

(** [c.lower()] on the code points 0..255. *)
Definition lower_char (c : ascii) : ascii :=
  let n := N_of_ascii c in
  if ((65 <=? n) && (n <=? 90) || (192 <=? n) && (n <=? 214)
      || (216 <=? n) && (n <=? 222))%N
  then ascii_of_N (n + 32) else c.

Fixpoint map_chars (f : ascii -> ascii) (s : string) : string :=
  match s with
  | EmptyString => EmptyString
  | String c s' => String (f c) (map_chars f s')
  end.

(** [s.lower()]. *)
Definition lower (s : string) : string := map_chars lower_char s.

(** [s.split('__')]: cut at every non-overlapping occurrence of two
    underscores, scanning from the left; [acc] is the piece being read. *)
Fixpoint split_dunder (acc : string) (s : string) : list string :=
  match s with
  | EmptyString => [acc]
  | String c s' =>
      match c, s' with
      | "_"%char, String "_"%char s'' => acc :: split_dunder EmptyString s''
      | _, _ => split_dunder (acc +:+ String c EmptyString) s'
      end
  end.

(** ['__'.join(l)]. *)
Definition join_dunder (l : list string) : string := String.concat "__" l.

(** [d[k] = v] on the items of a dict: a key already present keeps its
    position and takes the new value, a new key goes to the end. *)
Fixpoint dict_set {V : Type} (k : string) (v : V) (d : list (string * V))
  : list (string * V) :=
  match d with
  | [] => [(k, v)]
  | (k', v') :: d' =>
      if String.eqb k k' then (k, v) :: d' else (k', v') :: dict_set k v d'
  end.

End Py.

(** ** Parsed documents *)

#[local] Set Warnings "-register-all".

(** The values [json.load] and [json.loads] build.  A float is carried as
    its 64-bit pattern: the program never computes with it. *)
Inductive json : Type :=
| JNull
| JBool (b : bool)
| JInt (n : Z)
| JFloat (bits : Z)
| JString (s : string)
| JObject (fields : list (string * json))
| JArray (items : list json).

(** [isinstance(value, T)].  Python's [bool] is a subclass of [int], so a
    boolean is an instance of both. *)
Definition isinstance_bool (v : json) : bool :=
  match v with JBool _ => true | _ => false end.
Definition isinstance_int (v : json) : bool :=
  match v with JBool _ | JInt _ => true | _ => false end.
Definition isinstance_float (v : json) : bool :=
  match v with JFloat _ => true | _ => false end.
Definition isinstance_dict (v : json) : bool :=
  match v with JObject _ => true | _ => false end.
Definition isinstance_list (v : json) : bool :=
  match v with JArray _ => true | _ => false end.

(** Nesting depth of a document. *)
Fixpoint json_depth (v : json) : nat :=
  match v with
  | JObject fields =>
      S (fold_right (fun kv d => Nat.max (json_depth (snd kv)) d) O fields)
  | JArray items =>
      S (fold_right (fun x d => Nat.max (json_depth x) d) O items)
  | _ => O
  end.

(** ** Identifier sanitizer and value classifier *)

Definition reserved_keywords : list string :=
  [ "abort"; "action"; "add"; "after"; "all"; "alter"; "analyze"; "and"; "as"; "asc";
    "attach"; "autoincrement"; "before"; "begin"; "between"; "by"; "cascade"; "case";
    "cast"; "check"; "collate"; "column"; "commit"; "conflict"; "constraint"; "create";
    "cross"; "current"; "current_date"; "current_time"; "current_timestamp"; "database";
    "default"; "deferrable"; "deferred"; "delete"; "desc"; "detach"; "distinct"; "drop";
    "each"; "else"; "end"; "escape"; "except"; "exclusive"; "exists"; "explain"; "fail";
    "for"; "foreign"; "from"; "full"; "glob"; "group"; "having"; "if"; "ignore";
    "immediate"; "in"; "index"; "indexed"; "initially"; "inner"; "insert"; "instead";
    "intersect"; "into"; "is"; "isnull"; "join"; "key"; "left"; "like"; "limit"; "match";
    "natural"; "no"; "not"; "notnull"; "null"; "of"; "offset"; "on"; "or"; "order";
    "outer"; "plan"; "pragma"; "primary"; "query"; "raise"; "recursive"; "references";
    "regexp"; "reindex"; "release"; "rename"; "replace"; "restrict"; "right"; "rollback";
    "row"; "savepoint"; "select"; "set"; "table"; "temp"; "temporary"; "then"; "to";
    "transaction"; "trigger"; "type"; "union"; "unique"; "update"; "using"; "vacuum";
    "values"; "view"; "virtual"; "when"; "where"; "with"; "without" ].

(** [c if c.isalnum() else '_']. *)
Definition sanitize_char (c : ascii) : ascii :=
  if Py.isalnum c then c else "_"%char.

Definition _sanitize_name (name : string) : string :=
  let sanitized := Py.map_chars sanitize_char name in
  if bool_decide (Py.lower sanitized ∈ reserved_keywords)
  then "_" +:+ sanitized
  else sanitized.

Inductive sqlite_type : Type := BOOLEAN | INTEGER | REAL | REFERENCE | TEXT.

#[global] Instance sqlite_type_eq_dec : EqDecision sqlite_type.
Proof. solve_decision. Defined.

Definition _get_sqlite_type (value : json) : sqlite_type :=
  if isinstance_bool value then BOOLEAN
  else if isinstance_int value then INTEGER
  else if isinstance_float value then REAL
  else if isinstance_dict value || isinstance_list value then REFERENCE
  else TEXT.

(** ** Exceptions and outcomes *)

(** The message of an [sqlite3.OperationalError], by kind. *)
Inductive operational_error : Type :=
| duplicate_column_name
| syntax_error
| no_such_table
| no_such_column.

(** [OutOfFuel] is no Python exception: it marks the recursion bound of
    [insert_rec], which [_insert_data] never reaches. *)
Inductive exn : Type :=
| OperationalError (msg : operational_error)
| OverflowError
| BindingError
| AttributeError
| ValueError
| JSONDecodeError
| OutOfFuel.

Inductive outcome (A : Type) : Type :=
| Ret (a : A)
| Raise (e : exn).
Arguments Ret {A} a.
Arguments Raise {A} e.

(** ["duplicate column name" in str(e)] *)
Definition mentions_duplicate_column (msg : operational_error) : bool :=
  match msg with duplicate_column_name => true | _ => false end.

(** ** The storage engine

    A database is a finite map from table names to tables.  The engine
    compares identifiers without regard to ASCII case, so tables are keyed
    by their folded name and columns are looked up by folded name.  A
    statement is rejected when an identifier in it is not a bare identifier
    (empty, starting with a digit, or holding a character other than a
    letter, digit, underscore, dollar or a code point above 127), when the
    table or a column it names is missing, when ADD COLUMN names an existing
    column, or when a bound integer does not fit 64 bits.  Row identifiers
    are handed out by a per-table counter.  A row is stored as the bindings
    of the INSERT that made it; the key constraint on an explicitly bound
    [row__id], transactions and keywords of the engine that the sanitizer
    does not list are outside this model. *)

Module Engine.

Inductive value : Type :=
| NULL
| Integer (z : Z)
| Real (bits : Z)
| Text (s : string).

Inductive decl : Type :=
| INTEGER_PRIMARY_KEY_AUTOINCREMENT
| Declared (ty : sqlite_type).

Definition row : Type := Z * list (string * value).

Record table : Type := Table {
  columns : list (string * decl);
  rows : list row;
  next_rowid : Z
}.

Definition fold_char (c : ascii) : ascii :=
  let n := N_of_ascii c in
  if ((65 <=? n) && (n <=? 90))%N then ascii_of_N (n + 32) else c.

Definition fold_case (s : string) : string := Py.map_chars fold_char s.

Definition is_digit (c : ascii) : bool :=
  let n := N_of_ascii c in ((48 <=? n) && (n <=? 57))%N.

Definition ident_char (c : ascii) : bool :=
  let n := N_of_ascii c in
  ((48 <=? n) && (n <=? 57) || (65 <=? n) && (n <=? 90)
   || (97 <=? n) && (n <=? 122) || (n =? 95) || (n =? 36) || (128 <=? n))%N.

Fixpoint all_chars (p : ascii -> bool) (s : string) : bool :=
  match s with
  | EmptyString => true
  | String c s' => p c && all_chars p s'
  end.

Definition valid_ident (s : string) : bool :=
  match s with
  | EmptyString => false
  | String c _ => negb (is_digit c) && all_chars ident_char s
  end.

Definition has_column (t : table) (c : string) : bool :=
  existsb (fun col => String.eqb (fold_case (fst col)) (fold_case c)) (columns t).

(** How the driver binds a Python value to a statement parameter. *)
Definition adapt (v : json) : outcome value :=
  match v with
  | JNull => Ret NULL
  | JBool b => Ret (Integer (if b then 1 else 0))
  | JInt n =>
      if (- 2 ^ 63 <=? n) && (n <? 2 ^ 63) then Ret (Integer n)
      else Raise OverflowError
  | JFloat bits => Ret (Real bits)
  | JString s => Ret (Text s)
  | JObject _ | JArray _ => Raise BindingError
  end.

Fixpoint adapt_all (bindings : list (string * json))
  : outcome (list (string * value)) :=
  match bindings with
  | [] => Ret []
  | (c, v) :: rest =>
      match adapt v with
      | Raise e => Raise e
      | Ret x =>
          match adapt_all rest with
          | Raise e => Raise e
          | Ret xs => Ret ((c, x) :: xs)
          end
      end
  end.

(** CREATE TABLE IF NOT EXISTS name (cols) *)
Definition create_table_if_not_exists
    (name : string) (cols : list (string * decl)) (db : gmap string table)
  : outcome (gmap string table) :=
  if negb (valid_ident name && forallb (fun col => valid_ident (fst col)) cols)
  then Raise (OperationalError syntax_error)
  else match db !! fold_case name with
       | Some _ => Ret db
       | None =>
           if bool_decide (NoDup (map (fun col => fold_case (fst col)) cols))
           then Ret (<[fold_case name := Table cols [] 1]> db)
           else Raise (OperationalError duplicate_column_name)
       end.

(** ALTER TABLE name ADD COLUMN col ty *)
Definition add_column
    (name col : string) (ty : sqlite_type) (db : gmap string table)
  : outcome (gmap string table) :=
  if negb (valid_ident name && valid_ident col)
  then Raise (OperationalError syntax_error)
  else match db !! fold_case name with
       | None => Raise (OperationalError no_such_table)
       | Some t =>
           if has_column t col
           then Raise (OperationalError duplicate_column_name)
           else Ret (<[fold_case name :=
                        Table (columns t ++ [(col, Declared ty)])
                              (rows t) (next_rowid t)]> db)
       end.

(** INSERT INTO name (columns) VALUES (?, ...) with the values bound, or
    INSERT INTO name DEFAULT VALUES when there is no binding.  Returns the
    identifier of the new row ([cursor.lastrowid]). *)
Definition insert
    (name : string) (bindings : list (string * json)) (db : gmap string table)
  : outcome (Z * gmap string table) :=
  if negb (valid_ident name
           && forallb (fun b => valid_ident (fst b)) bindings)
  then Raise (OperationalError syntax_error)
  else match db !! fold_case name with
       | None => Raise (OperationalError no_such_table)
       | Some t =>
           if negb (forallb (fun b => has_column t (fst b)) bindings)
           then Raise (OperationalError no_such_column)
           else match adapt_all bindings with
                | Raise e => Raise e
                | Ret stored =>
                    let rowid := next_rowid t in
                    Ret (rowid,
                         <[fold_case name :=
                            Table (columns t) (rows t ++ [(rowid, stored)])
                                  (rowid + 1)]> db)
                end
       end.

End Engine.

(** ** The converter object and its monad *)

(** What [logger.error] records. *)
Inductive log_record : Type :=
| ErrorInsertingData (table_name : string) (parent_id : option Z) (e : exn)
| ErrorProcessingItem (item_num : nat) (e : exn)
| ErrorDecodingJsonFile (e : exn)
| ErrorProcessingJsonFile (e : exn)
| AnalyzeSchemaErrorDecoding (line_num : nat) (e : exn)
| AnalyzeSchemaErrorProcessing (line_num : nat) (e : exn)
| InsertDataErrorDecoding (line_num : nat) (e : exn)
| InsertDataErrorProcessing (line_num : nat) (e : exn).

(** The fields of [self]: the registry [known_tables], the sanitized root
    table name, the database behind the connection, and the error log. *)
Record converter : Type := Converter {
  known_tables : gmap string (gset string);
  root_table : string;
  conn : gmap string Engine.table;
  log : list log_record
}.

Definition M (A : Type) : Type := converter -> outcome A * converter.

#[global] Instance M_ret : MRet M := fun A a self => (Ret a, self).

#[global] Instance M_bind : MBind M := fun A B f m self =>
  match m self with
  | (Ret a, self') => f a self'
  | (Raise e, self') => (Raise e, self')
  end.

Definition get : M converter := fun self => (Ret self, self).

Definition raise {A : Type} (e : exn) : M A := fun self => (Raise e, self).

Definition with_known (k : gmap string (gset string)) (self : converter)
  : converter :=
  Converter k (root_table self) (conn self) (log self).

Definition with_conn (db : gmap string Engine.table) (self : converter)
  : converter :=
  Converter (known_tables self) (root_table self) db (log self).

Definition logger_error (r : log_record) : M unit := fun self =>
  (Ret tt,
   Converter (known_tables self) (root_table self) (conn self)
             (log self ++ [r])).

(** [self.cursor.execute(stmt)] for a statement that returns nothing. *)
Definition execute
    (stmt : gmap string Engine.table -> outcome (gmap string Engine.table))
  : M unit := fun self =>
  match stmt (conn self) with
  | Ret db => (Ret tt, with_conn db self)
  | Raise e => (Raise e, self)
  end.

(** [self.cursor.execute(query, values)] followed by
    [self.cursor.lastrowid]. *)
Definition execute_insert
    (table_name : string) (bindings : list (string * json)) : M Z :=
  fun self =>
  match Engine.insert table_name bindings (conn self) with
  | Ret (rowid, db) => (Ret rowid, with_conn db self)
  | Raise e => (Raise e, self)
  end.

(** [for x in l: body(x)] *)
Section loops.
Context {A : Type}.

Fixpoint for_each (body : A -> M unit) (l : list A) : M unit :=
  match l with
  | [] => mret tt
  | x :: l' => body x;; for_each body l'
  end.

(** [for n, x in enumerate(l, start): body(n, x)] *)
Fixpoint for_each_numbered (body : nat -> A -> M unit) (start : nat)
    (l : list A) : M unit :=
  match l with
  | [] => mret tt
  | x :: l' => body start x;; for_each_numbered body (S start) l'
  end.

End loops.

(** [self.known_tables[table_name]]; the entry is always present where the
    program reads it. *)
Definition known_columns (self : converter) (table_name : string)
  : gset string :=
  default ∅ (known_tables self !! table_name).

(** [__init__]: a fresh registry over the database found at [db_path]. *)
Definition __init__ (db : gmap string Engine.table) (root_table : string)
  : converter :=
  Converter ∅ (_sanitize_name root_table) db [].

(** ** Schema registry: [_create_table_if_not_exists] *)

(** [if parent_table:] *)
Definition truthy (parent_table : option string) : bool :=
  match parent_table with
  | Some p => negb (String.eqb p EmptyString)
  | None => false
  end.

(** Lines 68-81: register the table and create it, once per registry. *)
Definition ensure_table (table_name : string) (parent_table : option string)
  : M unit :=
  self ← get;
  if bool_decide (table_name ∈ dom (known_tables self)) then mret tt
  else
    (fun self => (Ret tt, with_known (<[table_name := ∅]> (known_tables self)) self));;
    let columns :=
      ("row__id", Engine.INTEGER_PRIMARY_KEY_AUTOINCREMENT)
      :: (if truthy parent_table
          then [(default EmptyString parent_table +:+ "_id", Engine.Declared INTEGER)]
          else []) in
    execute (Engine.create_table_if_not_exists table_name columns).

(** Lines 106-114: ADD COLUMN, then record the column; a duplicate-column
    failure is swallowed (and the column is not recorded), any other
    failure propagates. *)
Definition try_add_column
    (table_name column_name : string) (sqlite_type : sqlite_type) : M unit :=
  fun self =>
  match Engine.add_column table_name column_name sqlite_type (conn self) with
  | Ret db =>
      (Ret tt,
       with_known
         (<[table_name := known_columns self table_name ∪ {[column_name]}]>
            (known_tables self))
         (with_conn db self))
  | Raise (OperationalError msg) =>
      if mentions_duplicate_column msg then (Ret tt, self)
      else (Raise (OperationalError msg), self)
  | Raise e => (Raise e, self)
  end.

(** Lines 85-114: the body of the loop over [data.items()]; [rec] is the
    method itself. *)
Definition schema_field
    (rec : string -> json -> option string -> M unit)
    (table_name : string) (kv : string * json) : M unit :=
  let '(key, value) := kv in
  let column_name := _sanitize_name key in
  self ← get;
  if bool_decide (column_name ∈ known_columns self table_name) then mret tt
  else
    let sqlite_type := _get_sqlite_type value in
    if decide (sqlite_type = REFERENCE) then
      match value with
      | JObject _ =>
          rec (table_name +:+ "__" +:+ column_name) value (Some table_name)
      | JArray (first :: _) =>
          match first with
          | JObject _ =>
              rec (table_name +:+ "__" +:+ column_name) first (Some table_name)
          | _ => mret tt
          end
      | _ => mret tt
      end
    else try_add_column table_name column_name sqlite_type.

Fixpoint _create_table_if_not_exists
    (table_name : string) (data : json) (parent_table : option string)
    {struct data} : M unit :=
  let table_name := _sanitize_name table_name in
  ensure_table table_name parent_table;;
  match data with
  | JObject fields =>
      for_each (schema_field _create_table_if_not_exists table_name) fields
  | _ => raise AttributeError
  end.

(** ** Record writer: [_insert_data] *)

(** Lines 124-129: split the fields into [simple_data] and [nested_data],
    both keyed by sanitized name. *)
Definition partition_step
    (acc : list (string * json) * list (string * json)) (kv : string * json)
  : list (string * json) * list (string * json) :=
  let '(simple_data, nested_data) := acc in
  let '(key, value) := kv in
  let column_name := _sanitize_name key in
  if isinstance_dict value || isinstance_list value
  then (simple_data, Py.dict_set column_name value nested_data)
  else (Py.dict_set column_name value simple_data, nested_data).

Definition partition_fields (fields : list (string * json))
  : list (string * json) * list (string * json) :=
  fold_left partition_step fields ([], []).

(** Lines 139-140 and 154-155: the parent table's name is recovered from
    the child's by dropping its last [__]-separated piece. *)
Definition parent_ref_col (table_name : string) : string :=
  let parent_table :=
    Py.join_dunder (removelast (Py.split_dunder EmptyString table_name)) in
  parent_table +:+ "_id".

(** Lines 132-165: insert the row of scalars; columns and values are kept
    paired. *)
Definition insert_row
    (table_name : string) (simple_data : list (string * json))
    (parent_id : option Z) : M Z :=
  match simple_data with
  | _ :: _ =>
      match parent_id with
      | Some p =>
          execute_insert table_name
            (simple_data ++ [(parent_ref_col table_name, JInt p)])
      | None => execute_insert table_name simple_data
      end
  | [] =>
      match parent_id with
      | Some p =>
          execute_insert table_name [(parent_ref_col table_name, JInt p)]
      | None => execute_insert table_name []
      end
  end.

(** Lines 168-174: the body of the loop over [nested_data.items()]. *)
Definition insert_nested
    (rec : string -> json -> option Z -> M Z)
    (table_name : string) (row__id : Z) (kv : string * json) : M unit :=
  let '(key, value) := kv in
  let nested_table := table_name +:+ "__" +:+ key in
  match value with
  | JObject _ => rec nested_table value (Some row__id);; mret tt
  | JArray (first :: rest) =>
      if isinstance_dict first
      then for_each (fun item => rec nested_table item (Some row__id);; mret tt)
                    (first :: rest)
      else mret tt
  | _ => mret tt
  end.

(** Lines 177-179: log the failure and raise it again. *)
Definition logged_insert {A : Type}
    (table_name : string) (parent_id : option Z) (body : M A) : M A :=
  fun self =>
  match body self with
  | (Ret a, self') => (Ret a, self')
  | (Raise e, self') =>
      (Raise e,
       Converter (known_tables self') (root_table self') (conn self')
                 (log self' ++ [ErrorInsertingData table_name parent_id e]))
  end.

Fixpoint insert_rec
    (fuel : nat) (table_name : string) (data : json) (parent_id : option Z)
  : M Z :=
  match fuel with
  | O => raise OutOfFuel
  | S fuel' =>
      let table_name := _sanitize_name table_name in
      logged_insert table_name parent_id
        match data with
        | JObject fields =>
            let '(simple_data, nested_data) := partition_fields fields in
            row__id ← insert_row table_name simple_data parent_id;
            for_each (insert_nested (insert_rec fuel') table_name row__id)
                     nested_data;;
            mret row__id
        | _ => raise AttributeError
        end
  end.

Definition _insert_data
    (table_name : string) (data : json) (parent_id : option Z) : M Z :=
  insert_rec (S (json_depth data)) table_name data parent_id.

(** ** Ingestion: [process_file] *)

(** An input file: its characters, and what the parser makes of it as a
    whole ([json.load]) and line by line ([json.loads]); [None] stands for
    a [JSONDecodeError]. *)
Record input_file : Type := InputFile {
  content : string;
  whole : option json;
  lines : list (option json)
}.

(** [try: body except Exception as e: logger.error(...)] *)
Definition log_and_continue {A : Type}
    (record : exn -> log_record) (body : M A) : M unit :=
  fun self =>
  match body self with
  | (Ret _, self') => (Ret tt, self')
  | (Raise e, self') =>
      (Ret tt,
       Converter (known_tables self') (root_table self') (conn self')
                 (log self' ++ [record e]))
  end.

(** Lines 207-209 *)
Definition schema_pass (data : list json) : M unit :=
  self ← get;
  for_each
    (fun item => _create_table_if_not_exists (root_table self) item None)
    data.

(** Lines 211-222 *)
Definition write_pass (data : list json) : M unit :=
  self ← get;
  for_each_numbered
    (fun item_num item =>
       log_and_continue (ErrorProcessingItem item_num)
         (_insert_data (root_table self) item None))
    1%nat data.

Definition _process_json_file (f : input_file) : M unit :=
  fun self =>
  let body : M unit :=
    match whole f with
    | None => raise JSONDecodeError
    | Some (JArray data) => schema_pass data;; write_pass data
    | Some _ => raise ValueError
    end in
  match body self with
  | (Ret _, self') => (Ret tt, self')
  | (Raise e, self') =>
      let record :=
        match e with
        | JSONDecodeError => ErrorDecodingJsonFile e
        | _ => ErrorProcessingJsonFile e
        end in
      (Raise e,
       Converter (known_tables self') (root_table self') (conn self')
                 (log self' ++ [record]))
  end.

(** Lines 235-243 *)
Definition schema_pass_lines (lines : list (option json)) : M unit :=
  self ← get;
  for_each_numbered
    (fun line_num line =>
       match line with
       | None => logger_error (AnalyzeSchemaErrorDecoding line_num JSONDecodeError)
       | Some data =>
           log_and_continue (AnalyzeSchemaErrorProcessing line_num)
             (_create_table_if_not_exists (root_table self) data None)
       end)
    1%nat lines.

(** Lines 246-260 *)
Definition write_pass_lines (lines : list (option json)) : M unit :=
  self ← get;
  for_each_numbered
    (fun line_num line =>
       match line with
       | None => logger_error (InsertDataErrorDecoding line_num JSONDecodeError)
       | Some data =>
           log_and_continue (InsertDataErrorProcessing line_num)
             (_insert_data (root_table self) data None)
       end)
    1%nat lines.

Definition _process_jsonlines_file (f : input_file) : M unit :=
  schema_pass_lines (lines f);; write_pass_lines (lines f).

(** Lines 189-196: [first_char = f.read(1)] decides the format. *)
Definition process_file (f : input_file) : M unit :=
  match content f with
  | String "["%char _ => _process_json_file f
  | _ => _process_jsonlines_file f
  end.

(** ** Notions used in the statements *)



(** The specification's wording of format detection: the first character
    of the stream that is not JSON whitespace. *)
Definition is_whitespace (c : ascii) : bool :=
  let n := N_of_ascii c in ((n =? 32) || (n =? 9) || (n =? 10) || (n =? 13))%N.

Fixpoint first_non_whitespace (s : string) : option ascii :=
  match s with
  | EmptyString => None
  | String c s' => if is_whitespace c then first_non_whitespace s' else Some c
  end.

(** The rows of a table of the database, in insertion order. *)
Definition table_rows (self : converter) (table_name : string)
  : list Engine.row :=
  match conn self !! Engine.fold_case table_name with
  | Some t => Engine.rows t
  | None => []
  end.

(** The columns of a table of the database, as declared. *)
Definition table_columns (self : converter) (table_name : string)
  : option (list (string * Engine.decl)) :=
  Engine.columns <$> conn self !! Engine.fold_case table_name.

(** How schema operations may change the converter: registry entries and
    declared columns are only added, rows are untouched. *)
Definition table_le (t t' : Engine.table) : Prop :=
  Engine.columns t `prefix_of` Engine.columns t'
  ∧ Engine.rows t' = Engine.rows t
  ∧ Engine.next_rowid t' = Engine.next_rowid t.

Definition known_le (k k' : gmap string (gset string)) : Prop :=
  ∀ t cols, k !! t = Some cols → ∃ cols', k' !! t = Some cols' ∧ cols ⊆ cols'.

Definition db_le (db db' : gmap string Engine.table) : Prop :=
  (∀ key tb, db !! key = Some tb → ∃ tb', db' !! key = Some tb' ∧ table_le tb tb')
  ∧ (∀ key tb', db' !! key = Some tb' → db !! key = None → Engine.rows tb' = []).

Definition schema_grows (self self' : converter) : Prop :=
  known_le (known_tables self) (known_tables self')
  ∧ db_le (conn self) (conn self')
  ∧ root_table self' = root_table self.

(** [self'] knows every table and column [self] knows, in the registry and
    in the database; rows and log are not compared. *)
Definition db_cols_le (db db' : gmap string Engine.table) : Prop :=
  ∀ key tb, db !! key = Some tb →
    ∃ tb', db' !! key = Some tb'
           ∧ Engine.columns tb `prefix_of` Engine.columns tb'.

Definition schema_le (self self' : converter) : Prop :=
  known_le (known_tables self) (known_tables self')
  ∧ db_cols_le (conn self) (conn self').

(** The tables the write of [data] into [table_name] targets, following
    the traversal of [_insert_data]: the table of the row itself, and the
    targets of every object field and of every element of an array whose
    first element is an object. *)
Inductive write_targets : string → json → string → Prop :=
| targets_own table_name fields :
    write_targets table_name (JObject fields) (_sanitize_name table_name)
| targets_object table_name fields key value t :
    (key, value) ∈ (partition_fields fields).2 →
    isinstance_dict value = true →
    write_targets (_sanitize_name table_name +:+ "__" +:+ key) value t →
    write_targets table_name (JObject fields) t
| targets_array table_name fields key first rest item t :
    (key, JArray (first :: rest)) ∈ (partition_fields fields).2 →
    isinstance_dict first = true →
    item ∈ first :: rest →
    write_targets (_sanitize_name table_name +:+ "__" +:+ key) item t →
    write_targets table_name (JObject fields) t.

(** The targets that the first element of every array stands for, through
    fields whose name the registry [k] does not hold as a scalar column of
    the enclosing table. *)
Inductive represented (k : gmap string (gset string))
  : string → json → string → Prop :=
| represented_own table_name fields :
    represented k table_name (JObject fields) (_sanitize_name table_name)
| represented_object table_name fields key value t :
    (key, value) ∈ (partition_fields fields).2 →
    key ∉ default ∅ (k !! _sanitize_name table_name) →
    isinstance_dict value = true →
    represented k (_sanitize_name table_name +:+ "__" +:+ key) value t →
    represented k table_name (JObject fields) t
| represented_first table_name fields key first rest t :
    (key, JArray (first :: rest)) ∈ (partition_fields fields).2 →
    key ∉ default ∅ (k !! _sanitize_name table_name) →
    isinstance_dict first = true →
    represented k (_sanitize_name table_name +:+ "__" +:+ key) first t →
    represented k table_name (JObject fields) t.

(** Every registered table exists in the database. *)
Definition tables_exist (self : converter) : Prop :=
  ∀ t : string, t ∈ dom (known_tables self) →
    is_Some (conn self !! Engine.fold_case t).

(** The bindings of the INSERT that [insert_row] issues: the scalar
    fields, then the parent reference when there is a parent. *)
Definition row_bindings (table_name : string) (fields : list (string * json))
    (parent_id : option Z) : list (string * json) :=
  match parent_id with
  | Some p => (partition_fields fields).1 ++ [(parent_ref_col table_name, JInt p)]
  | None => (partition_fields fields).1
  end.

(** [self'] has the database of [self] on every key that satisfies [p]. *)
Definition untouched (p : string → Prop) (self self' : converter) : Prop :=
  ∀ key, p key → conn self' !! key = conn self !! key.

(** Registry, root table name and declared columns are the same. *)
Definition same_schema (self self' : converter) : Prop :=
  known_tables self' = known_tables self
  ∧ root_table self' = root_table self
  ∧ ∀ key, Engine.columns <$> conn self' !! key
           = Engine.columns <$> conn self !! key.

(** Whether the engine accepts the INSERT of the row of [item] into
    [table_name] when the row has no parent. *)
Definition row_accepted (db : gmap string Engine.table) (table_name : string)
    (item : json) : bool :=
  match item with
  | JObject fields =>
      match Engine.insert table_name (row_bindings table_name fields None) db with
      | Ret _ => true
      | Raise _ => false
      end
  | _ => false
  end.

Definition root_row_accepted (self : converter) (item : json) : bool :=
  row_accepted (conn self) (_sanitize_name (root_table self)) item.



(** The rows of the root table. *)
Definition root_rows (self : converter) : list Engine.row :=
  table_rows self (_sanitize_name (root_table self)).








(** The sanitized names of the scalar ([scalar = true]) or composite
    ([scalar = false]) fields met anywhere in a document. *)
Inductive field_name (scalar : bool) : json → string → Prop :=
| name_here fields key value :
    (key, value) ∈ fields →
    negb (isinstance_dict value || isinstance_list value) = scalar →
    field_name scalar (JObject fields) (_sanitize_name key)
| name_in_object fields key value c :
    (key, value) ∈ fields →
    field_name scalar value c →
    field_name scalar (JObject fields) c
| name_in_array items item c :
    item ∈ items →
    field_name scalar item c →
    field_name scalar (JArray items) c.

(** No sanitized name serves both a scalar and a composite field. *)
Definition no_name_clash (data : json) : Prop :=
  ∀ c, field_name true data c → ¬ field_name false data c.

(** The registry is consistent with the database, and its columns are
    among the names [S]. *)
Definition registry_ok (S : string → Prop) (self : converter) : Prop :=
  (∀ t c, c ∈ known_columns self t →
     S c ∧ Engine.valid_ident t = true ∧ Engine.valid_ident c = true
     ∧ ∃ tb, conn self !! Engine.fold_case t = Some tb
             ∧ Engine.has_column tb c = true)
  ∧ (∀ t : string, t ∈ dom (known_tables self) →
       Engine.valid_ident t = true
       ∧ is_Some (conn self !! Engine.fold_case t)).

(** A registry that holds tables but no column. *)
Definition blank (k : gmap string (gset string)) : Prop :=
  ∀ t cols, k !! t = Some cols → cols = ∅.

(** The parent reference column of a CREATE is a valid identifier. *)
Definition parent_ok (parent_table : option string) : Prop :=
  truthy parent_table = true →
  Engine.valid_ident (default EmptyString parent_table +:+ "_id") = true.

(** The scalar field names of [data] are among [S], its composite field
    names are not. *)
Definition names_ok (S : string → Prop) (data : json) : Prop :=
  (∀ c, field_name true data c → S c)
  ∧ (∀ c, field_name false data c → ¬ S c).

(** From any blank registry over a database that extends the one of
    [self], [m] returns and leaves the database as it is. *)
Definition reruns (m : M unit) (self : converter) : Prop :=
  ∀ s2, db_cols_le (conn self) (conn s2) → blank (known_tables s2) →
    ∃ s2', m s2 = (Ret tt, s2') ∧ conn s2' = conn s2
           ∧ blank (known_tables s2').

(** ** Example inputs *)

(** The double quote and the line feed, to spell JSON text. *)
Definition dq : string := String (ascii_of_nat 34) EmptyString.

(** A converter over an empty database, with the default root table. *)
Definition fresh : converter := __init__ ∅ "root".

(** [[{"id": 1, "items": [{"sku": "a"}, {"sku": "b"}]}]] *)
Definition doc_items : json :=
  JObject [("id", JInt 1);
           ("items", JArray [JObject [("sku", JString "a")];
                             JObject [("sku", JString "b")]])].

Definition file_items : input_file :=
  InputFile
    ("[{" +:+ dq +:+ "id" +:+ dq +:+ ": 1, " +:+ dq +:+ "items" +:+ dq
     +:+ ": [{" +:+ dq +:+ "sku" +:+ dq +:+ ": " +:+ dq +:+ "a" +:+ dq
     +:+ "}, {" +:+ dq +:+ "sku" +:+ dq +:+ ": " +:+ dq +:+ "b" +:+ dq
     +:+ "}]}]")
    (Some (JArray [doc_items])) [Some (JArray [doc_items])].

(** [{"items": [{"a": 1}, {"b": {"c": 1}}]}]: the second element of the
    array needs a table that the first does not. *)
Definition doc_later_table : json :=
  JObject [("items", JArray [JObject [("a", JInt 1)];
                             JObject [("b", JObject [("c", JInt 1)])]])].

(** [[{"a__b": {"c": 1}}]]: a field name that holds the separator. *)
Definition doc_dunder : json :=
  JObject [("a__b", JObject [("c", JInt 1)])].

Definition file_dunder : input_file :=
  InputFile
    ("[{" +:+ dq +:+ "a__b" +:+ dq +:+ ": {" +:+ dq +:+ "c" +:+ dq
     +:+ ": 1}}]")
    (Some (JArray [doc_dunder])) [Some (JArray [doc_dunder])].



(** Two lines, [{"id": 1}] and [{"id": 2, "tags": [{"t": 1}, 5]}]: the
    second record holds an array whose second element is no object. *)
Definition doc_plain : json := JObject [("id", JInt 1)].



(** [{"a": {"b": {"y": 1}}, "a__b": 1, "a-_b": {"x": 1}}]: the last two
    field names sanitize to the same name, one scalar and one composite,
    and the table of the last field is also the table of [a]'s [b]. *)
Definition doc_clash : json :=
  JObject [("a", JObject [("b", JObject [("y", JInt 1)])]);
           ("a__b", JInt 1);
           ("a-_b", JObject [("x", JInt 1)])].

(** [ [{}]] with a leading space, on one line. *)
Definition file_leading_space : input_file :=
  InputFile " [{}]" (Some (JArray [JObject []])) [Some (JArray [JObject []])].

(** [{"note": null}] *)
Definition doc_null : json := JObject [("note", JNull)].

(** * Properties *)

(** ** Sanitizer, classifier and format detection *)






(** C8. A boolean is an instance of the integer type too, but the
    classifier tests for boolean first: every boolean is BOOLEAN, never
    INTEGER; every object and every array is REFERENCE (composite). *)
Theorem get_sqlite_type_bool_before_int :
  (∀ b : bool,
     isinstance_int (JBool b) = true
     ∧ _get_sqlite_type (JBool b) = BOOLEAN
     ∧ _get_sqlite_type (JBool b) ≠ INTEGER)
  ∧ (∀ fields, _get_sqlite_type (JObject fields) = REFERENCE)
  ∧ (∀ items, _get_sqlite_type (JArray items) = REFERENCE).
Proof.
  split; [|split]; [intros b; split; [|split] | |]; try reflexivity.
  discriminate.
Qed.

(** C6 (as the program has it). The format is decided by the first
    character of the file alone, with no whitespace skipped: an opening
    bracket selects the array reader, anything else (an empty file too)
    the line reader. *)
Theorem process_file_first_char (f : input_file) :
  process_file f =
    if bool_decide (String.get 0 (content f) = Some "["%char)
    then _process_json_file f
    else _process_jsonlines_file f.
Proof.
  unfold process_file. destruct (content f) as [|c rest]; [reflexivity|].
  simpl String.get. destruct (decide (c = "["%char)) as [->|Hne].
  - reflexivity.
  - rewrite bool_decide_eq_false_2 by congruence.
    destruct c as [[] [] [] [] [] [] [] []]; try reflexivity.
    exfalso. apply Hne. reflexivity.
Qed.

(** ** The monad and its loops *)

Lemma bind_inv {A B : Type} (m : M A) (f : A → M B) self r :
  (m ≫= f) self = r →
  match m self with
  | (Ret a, s1) => f a s1 = r
  | (Raise e, s1) => r = (Raise e, s1)
  end.
Proof.
  unfold mbind, M_bind. destruct (m self) as [[a|e] s1]; congruence.
Qed.

Lemma bind_ret_inv {A B : Type} (m : M A) (f : A → M B) self b self' :
  (m ≫= f) self = (Ret b, self') →
  ∃ a s1, m self = (Ret a, s1) ∧ f a s1 = (Ret b, self').
Proof.
  intros H. apply bind_inv in H. destruct (m self) as [[a|e] s1].
  - eauto.
  - discriminate.
Qed.

Lemma for_each_cons {A : Type} (body : A → M unit) x l :
  for_each body (x :: l) = (body x;; for_each body l).
Proof. reflexivity. Qed.

Lemma for_each_rel {A : Type} (R : relation converter)
    `{!Reflexive R} `{!Transitive R} (body : A → M unit) (l : list A) :
  (∀ x, x ∈ l → ∀ s r s', body x s = (r, s') → R s s') →
  ∀ s r s', for_each body l s = (r, s') → R s s'.
Proof.
  induction l as [|x l IH]; intros Hbody s r s' Hrun.
  - injection Hrun as _ <-. reflexivity.
  - simpl in Hrun. apply bind_inv in Hrun.
    destruct (body x s) as [[[]|e] s1] eqn:Hx.
    + transitivity s1.
      * eapply Hbody; [left | exact Hx].
      * eapply IH; [|exact Hrun]. intros y Hy. apply Hbody. right. exact Hy.
    + injection Hrun as _ <-. eapply Hbody; [left | exact Hx].
Qed.


(** ** Nesting depth *)

Lemma json_depth_field key value fields :
  (key, value) ∈ fields → (json_depth value < json_depth (JObject fields))%nat.
Proof.
  intros Hin. simpl. apply Nat.lt_succ_r.
  induction fields as [|kv fields IH]; [inversion Hin|].
  apply elem_of_cons in Hin as [<-|Hin]; simpl; [lia|].
  specialize (IH Hin). lia.
Qed.

Lemma json_depth_item x items :
  x ∈ items → (json_depth x < json_depth (JArray items))%nat.
Proof.
  intros Hin. simpl. apply Nat.lt_succ_r.
  induction items as [|y items IH]; [inversion Hin|].
  apply elem_of_cons in Hin as [<-|Hin]; simpl; [lia|].
  specialize (IH Hin). lia.
Qed.

Lemma json_depth_ind (P : json → Prop) :
  (∀ v, (∀ w, (json_depth w < json_depth v)%nat → P w) → P v) → ∀ v, P v.
Proof.
  intros Hstep.
  assert (Hn : ∀ n v, (json_depth v < n)%nat → P v).
  { induction n as [|n IHn]; intros v Hv; [lia|].
    apply Hstep. intros w Hw. apply IHn. lia. }
  intros v. apply (Hn (S (json_depth v))). lia.
Qed.

(** ** Schema operations only add *)

#[local] Instance table_le_refl : Reflexive table_le.
Proof. intros t. repeat split; reflexivity. Qed.

#[local] Instance table_le_trans : Transitive table_le.
Proof.
  intros a b c (H1 & H2 & H3) (H4 & H5 & H6). repeat split.
  - etransitivity; eassumption.
  - congruence.
  - congruence.
Qed.

#[local] Instance known_le_refl : Reflexive known_le.
Proof. intros k t cols H. exists cols. split; [exact H | reflexivity]. Qed.

#[local] Instance known_le_trans : Transitive known_le.
Proof.
  intros a b c Hab Hbc t cols H.
  destruct (Hab _ _ H) as (cols1 & H1 & Hs1).
  destruct (Hbc _ _ H1) as (cols2 & H2 & Hs2).
  exists cols2. split; [exact H2 | set_solver].
Qed.

#[local] Instance db_le_refl : Reflexive db_le.
Proof.
  intros db. split.
  - intros key tb H. exists tb. split; [exact H | reflexivity].
  - intros key tb H1 H2. congruence.
Qed.

#[local] Instance db_le_trans : Transitive db_le.
Proof.
  intros a b c [Hab Hab'] [Hbc Hbc']. split.
  - intros key tb H. destruct (Hab _ _ H) as (tb1 & H1 & Hle1).
    destruct (Hbc _ _ H1) as (tb2 & H2 & Hle2).
    exists tb2. split; [exact H2 | etransitivity; eassumption].
  - intros key tb2 H2 Hnone. destruct (b !! key) as [tb1|] eqn:Hb.
    + destruct (Hbc _ _ Hb) as (tb2' & H2' & (_ & Hrows & _)).
      assert (tb2' = tb2) as -> by congruence.
      rewrite Hrows. eapply Hab'; eassumption.
    + eapply Hbc'; eassumption.
Qed.

#[local] Instance schema_grows_refl : Reflexive schema_grows.
Proof. intros s. split; [|split]; reflexivity. Qed.

#[local] Instance schema_grows_trans : Transitive schema_grows.
Proof.
  intros a b c (H1 & H2 & H3) (H5 & H6 & H7).
  split; [|split].
  - etransitivity; eassumption.
  - etransitivity; eassumption.
  - congruence.
Qed.

Lemma db_le_insert_new db key tb :
  db !! key = None → Engine.rows tb = [] → db_le db (<[key := tb]> db).
Proof.
  intros Hnone Hrows. split.
  - intros k t Hk. exists t. split; [|reflexivity].
    rewrite lookup_insert_ne; [exact Hk | congruence].
  - intros k t Hk Hn. destruct (decide (key = k)) as [->|Hne].
    + rewrite lookup_insert_eq in Hk. congruence.
    + rewrite lookup_insert_ne in Hk by exact Hne. congruence.
Qed.

Lemma db_le_insert_le db key tb tb' :
  db !! key = Some tb → table_le tb tb' → db_le db (<[key := tb']> db).
Proof.
  intros Hsome Hle. split.
  - intros k t Hk. destruct (decide (key = k)) as [->|Hne].
    + exists tb'. rewrite lookup_insert_eq. split; [reflexivity|].
      congruence.
    + exists t. rewrite lookup_insert_ne by exact Hne.
      split; [exact Hk | reflexivity].
  - intros k t Hk Hn. destruct (decide (key = k)) as [->|Hne].
    + congruence.
    + rewrite lookup_insert_ne in Hk by exact Hne. congruence.
Qed.

Lemma create_table_le name cols db db' :
  Engine.create_table_if_not_exists name cols db = Ret db' → db_le db db'.
Proof.
  unfold Engine.create_table_if_not_exists. intros H.
  destruct (negb _); [discriminate|].
  destruct (db !! Engine.fold_case name) eqn:Hl.
  - injection H as <-. reflexivity.
  - destruct (bool_decide _); [|discriminate]. injection H as <-.
    apply db_le_insert_new; [exact Hl | reflexivity].
Qed.

Lemma add_column_le name col ty db db' :
  Engine.add_column name col ty db = Ret db' → db_le db db'.
Proof.
  unfold Engine.add_column. intros H.
  destruct (negb _); [discriminate|].
  destruct (db !! Engine.fold_case name) as [t|] eqn:Hl; [|discriminate].
  destruct (Engine.has_column t col); [discriminate|]. injection H as <-.
  eapply db_le_insert_le; [exact Hl|]. repeat split; simpl.
  apply prefix_app_r. reflexivity.
Qed.

Lemma ensure_table_grows table_name parent_table self r self' :
  ensure_table table_name parent_table self = (r, self') →
  schema_grows self self'.
Proof.
  unfold ensure_table. intros H. apply bind_inv in H. simpl in H.
  destruct (bool_decide _) eqn:Hdom.
  - injection H as _ <-. reflexivity.
  - apply bool_decide_eq_false_1 in Hdom. apply not_elem_of_dom in Hdom.
    apply bind_inv in H. simpl in H. unfold execute in H. simpl in H.
    destruct (Engine.create_table_if_not_exists _ _ _) as [db|e] eqn:Hc;
      injection H as _ <-; repeat split; simpl; try reflexivity.
    all: try (intros t cols Ht; exists cols; split; [|reflexivity];
              rewrite lookup_insert_ne; [exact Ht | congruence]).
    all: try (apply create_table_le in Hc; apply Hc).
    all: try (intros key tb Hk; exists tb; split; [exact Hk | reflexivity]).
    all: try (intros; congruence).
Qed.

Lemma try_add_column_grows table_name column_name ty self r self' :
  try_add_column table_name column_name ty self = (r, self') →
  schema_grows self self'.
Proof.
  unfold try_add_column. intros H.
  destruct (Engine.add_column _ _ _ _) as [db|e] eqn:Ha.
  - injection H as _ <-. apply add_column_le in Ha. repeat split; simpl.
    + intros t cols Ht. destruct (decide (table_name = t)) as [->|Hne].
      * eexists. rewrite lookup_insert_eq. split; [reflexivity|].
        unfold known_columns. rewrite Ht. simpl. set_solver.
      * exists cols. rewrite lookup_insert_ne by exact Hne.
        split; [exact Ht | reflexivity].
    + apply Ha.
    + apply Ha.
  - destruct e as [msg| | | | | |]; try (injection H as _ <-; reflexivity).
    destruct (mentions_duplicate_column msg); injection H as _ <-; reflexivity.
Qed.

Lemma create_eq table_name data parent_table :
  _create_table_if_not_exists table_name data parent_table =
    (ensure_table (_sanitize_name table_name) parent_table;;
     match data with
     | JObject fields =>
         for_each
           (schema_field _create_table_if_not_exists (_sanitize_name table_name))
           fields
     | _ => raise AttributeError
     end).
Proof. destruct data; reflexivity. Qed.

Lemma schema_field_grows rec table_name key value :
  (∀ t v p s r s',
     (json_depth v < S (json_depth value))%nat →
     rec t v p s = (r, s') → schema_grows s s') →
  ∀ self r self',
    schema_field rec table_name (key, value) self = (r, self') →
    schema_grows self self'.
Proof.
  intros Hrec self r self' H. unfold schema_field in H.
  apply bind_inv in H. simpl in H.
  destruct (bool_decide _).
  { injection H as _ <-. reflexivity. }
  destruct (decide _) as [Href|Href].
  - destruct value as [| | | | |fields|[|first rest]];
      try (injection H as _ <-; reflexivity).
    + eapply Hrec; [|exact H]. lia.
    + destruct first; try (injection H as _ <-; reflexivity).
      eapply Hrec; [|exact H].
      pose proof (json_depth_item (JObject fields) (JObject fields :: rest)
                    ltac:(left)). lia.
  - eapply try_add_column_grows. exact H.
Qed.

Lemma create_grows data :
  ∀ table_name parent_table self r self',
    _create_table_if_not_exists table_name data parent_table self = (r, self') →
    schema_grows self self'.
Proof.
  induction data as [data IH] using json_depth_ind.
  intros table_name parent_table self r self' H.
  rewrite create_eq in H. apply bind_inv in H.
  destruct (ensure_table _ _ self) as [[[]|e] s1] eqn:He.
  - apply ensure_table_grows in He. transitivity s1; [exact He|].
    destruct data as [| | | | |fields|items];
      try (injection H as _ <-; reflexivity).
    eapply (for_each_rel schema_grows); [|exact H].
    intros [key value] Hin s r0 s' Hf.
    eapply schema_field_grows; [|exact Hf].
    intros t v p s0 r1 s0' Hd Hr. eapply IH; [|exact Hr].
    pose proof (json_depth_field _ _ _ Hin). lia.
  - injection H as _ <-. eapply ensure_table_grows. exact He.
Qed.

(** ** Processing a document again changes nothing *)

#[local] Instance db_cols_le_refl : Reflexive db_cols_le.
Proof. intros db key tb H. exists tb. split; [exact H | reflexivity]. Qed.

#[local] Instance db_cols_le_trans : Transitive db_cols_le.
Proof.
  intros a b c Hab Hbc key tb H.
  destruct (Hab _ _ H) as (tb1 & H1 & Hp1).
  destruct (Hbc _ _ H1) as (tb2 & H2 & Hp2).
  exists tb2. split; [exact H2 | etransitivity; eassumption].
Qed.

#[local] Instance schema_le_refl : Reflexive schema_le.
Proof. intros s. split; reflexivity. Qed.

#[local] Instance schema_le_trans : Transitive schema_le.
Proof. intros a b c [H1 H2] [H3 H4]. split; etransitivity; eassumption. Qed.

Lemma schema_grows_le self self' : schema_grows self self' → schema_le self self'.
Proof.
  intros (Hk & [Hdb _] & _). split; [exact Hk|].
  intros key tb H. destruct (Hdb _ _ H) as (tb' & H' & Hp & _). eauto.
Qed.

Lemma has_column_prefix t t' c :
  Engine.columns t `prefix_of` Engine.columns t' →
  Engine.has_column t c = true → Engine.has_column t' c = true.
Proof.
  intros [rest Hrest]. unfold Engine.has_column. rewrite Hrest, existsb_app.
  intros ->. reflexivity.
Qed.

Lemma known_columns_le self self' table_name c :
  known_le (known_tables self) (known_tables self') →
  c ∈ known_columns self table_name → c ∈ known_columns self' table_name.
Proof.
  unfold known_columns. intros Hle Hc.
  destruct (known_tables self !! table_name) as [cols|] eqn:Hk; simpl in Hc.
  - destruct (Hle _ _ Hk) as (cols' & -> & Hsub). simpl. set_solver.
  - set_solver.
Qed.

Lemma known_dom_le k k' (t : string) : known_le k k' → t ∈ dom k → t ∈ dom k'.
Proof.
  intros Hle [cols Hc]%elem_of_dom. destruct (Hle _ _ Hc) as (cols' & Hc' & _).
  apply elem_of_dom. eauto.
Qed.

(** What a duplicate-column failure says about the database. *)
Lemma add_column_duplicate name col ty db :
  Engine.add_column name col ty db = Raise (OperationalError duplicate_column_name)
  ↔ Engine.valid_ident name = true ∧ Engine.valid_ident col = true
    ∧ ∃ t, db !! Engine.fold_case name = Some t ∧ Engine.has_column t col = true.
Proof.
  unfold Engine.add_column.
  destruct (Engine.valid_ident name), (Engine.valid_ident col); simpl;
    try (split; [discriminate | intros (? & ? & _); discriminate]).
  destruct (db !! Engine.fold_case name) as [t|].
  - destruct (Engine.has_column t col) eqn:Hc.
    + split; [intros _; eauto|reflexivity].
    + split; [discriminate|]. intros (_ & _ & t' & [= <-] & ?). congruence.
  - split; [discriminate|]. intros (_ & _ & t' & ? & _). discriminate.
Qed.

Lemma try_add_column_ret table_name c ty self self' :
  try_add_column table_name c ty self = (Ret tt, self') →
  (c ∈ known_columns self' table_name)
  ∨ (self' = self
     ∧ Engine.add_column table_name c ty (conn self)
       = Raise (OperationalError duplicate_column_name)).
Proof.
  unfold try_add_column. intros H.
  destruct (Engine.add_column _ _ _ _) as [db|e] eqn:Ha.
  - injection H as <-. left. unfold known_columns at 1. simpl.
    rewrite lookup_insert_eq. simpl. set_solver.
  - destruct e as [msg| | | | | |]; try discriminate.
    destruct msg; simpl in H; try discriminate.
    injection H as <-. right. split; reflexivity.
Qed.

Lemma try_add_column_again table_name c ty self s2 :
  Engine.add_column table_name c ty (conn self)
    = Raise (OperationalError duplicate_column_name) →
  db_cols_le (conn self) (conn s2) →
  try_add_column table_name c ty s2 = (Ret tt, s2).
Proof.
  intros Hdup Hle. apply add_column_duplicate in Hdup as (Hv1 & Hv2 & t & Ht & Hc).
  destruct (Hle _ _ Ht) as (t' & Ht' & Hp).
  assert (Engine.add_column table_name c ty (conn s2)
          = Raise (OperationalError duplicate_column_name)) as Hdup2.
  { apply add_column_duplicate. repeat split; try assumption.
    exists t'. split; [exact Ht'|]. eapply has_column_prefix; eassumption. }
  unfold try_add_column. rewrite Hdup2. reflexivity.
Qed.

Lemma schema_field_again rec table_name key value :
  (∀ t v p s s' s2,
     (json_depth v < S (json_depth value))%nat →
     rec t v p s = (Ret tt, s') → schema_le s' s2 →
     rec t v p s2 = (Ret tt, s2)) →
  ∀ self self' s2,
    schema_field rec table_name (key, value) self = (Ret tt, self') →
    schema_le self self' →
    schema_le self' s2 →
    schema_field rec table_name (key, value) s2 = (Ret tt, s2).
Proof.
  intros Hrec self self' s2 H Hgrow Hle.
  unfold schema_field in *. apply bind_inv in H. simpl in H.
  unfold mbind, M_bind, get. simpl.
  destruct (bool_decide (_ ∈ known_columns s2 _)) eqn:Hm2; [reflexivity|].
  apply bool_decide_eq_false_1 in Hm2.
  destruct (bool_decide (_ ∈ known_columns self _)) eqn:Hm1.
  { apply bool_decide_eq_true_1 in Hm1. exfalso. apply Hm2.
    eapply known_columns_le; [|exact Hm1].
    destruct Hgrow, Hle. etransitivity; eassumption. }
  destruct (decide _) as [Href|Href].
  - destruct value as [| | | | |fields|[|first rest]]; try reflexivity.
    + eapply Hrec; [|exact H|exact Hle]. lia.
    + destruct first; try reflexivity.
      eapply Hrec; [|exact H|exact Hle].
      pose proof (json_depth_item (JObject fields) (JObject fields :: rest)
                    ltac:(left)). lia.
  - apply try_add_column_ret in H as [Hin|[-> Hdup]].
    + exfalso. apply Hm2. eapply known_columns_le; [apply Hle | exact Hin].
    + eapply try_add_column_again; [exact Hdup | apply Hle].
Qed.

Lemma create_again data :
  ∀ table_name parent_table self self' s2,
    _create_table_if_not_exists table_name data parent_table self = (Ret tt, self') →
    schema_le self' s2 →
    _create_table_if_not_exists table_name data parent_table s2 = (Ret tt, s2).
Proof.
  induction data as [data IH] using json_depth_ind.
  intros table_name parent_table self self' s2 H Hle.
  rewrite create_eq in H |- *. apply bind_ret_inv in H as ([] & s1 & He & H).
  assert (_sanitize_name table_name ∈ dom (known_tables s1)) as Hdom1.
  { unfold ensure_table in He. apply bind_inv in He. simpl in He.
    destruct (bool_decide _) eqn:Hd.
    - injection He as <-. apply bool_decide_eq_true_1 in Hd. exact Hd.
    - apply bind_ret_inv in He as ([] & s0 & [= <-] & He).
      unfold execute in He. simpl in He.
      destruct (Engine.create_table_if_not_exists _ _ _); [|discriminate].
      injection He as <-. simpl. apply elem_of_dom.
      rewrite lookup_insert_eq. eauto. }
  destruct data as [| | | | |fields|items]; try discriminate.
  assert (Hs1 : schema_le s1 self').
  { apply schema_grows_le. eapply (for_each_rel schema_grows); [|exact H].
    intros [key value] Hin s r s' Hf. eapply schema_field_grows; [|exact Hf].
    intros. eapply create_grows. eassumption. }
  assert (ensure_table (_sanitize_name table_name) parent_table s2 = (Ret tt, s2))
    as He2.
  { unfold ensure_table, mbind, M_bind, get. simpl.
    rewrite bool_decide_eq_true_2; [reflexivity|].
    eapply known_dom_le; [|exact Hdom1].
    destruct Hs1, Hle. etransitivity; eassumption. }
  unfold mbind at 1, M_bind at 1. rewrite He2.
  clear He He2 Hdom1 Hs1.
  revert s1 self' H Hle.
  induction fields as [|[key value] fields IHf]; intros s1 self' H Hle.
  - reflexivity.
  - rewrite for_each_cons in H. apply bind_ret_inv in H as ([] & sm & Hx & H).
    assert (Hm : schema_le sm self').
    { apply schema_grows_le. eapply (for_each_rel schema_grows); [|exact H].
      intros [k v] Hin s r s' Hf. eapply schema_field_grows; [|exact Hf].
      intros. eapply create_grows. eassumption. }
    assert (H1m : schema_le s1 sm).
    { apply schema_grows_le. eapply schema_field_grows; [|exact Hx].
      intros. eapply create_grows. eassumption. }
    rewrite for_each_cons. unfold mbind at 1, M_bind at 1.
    rewrite (schema_field_again _ _ _ _) with (self := s1) (self' := sm).
    + eapply IHf; [|exact H|exact Hle].
      intros w Hw. apply IH. simpl in Hw |- *. lia.
    + intros t v p s s' s2' Hd Hr Hle'. eapply IH; [|exact Hr|exact Hle'].
      simpl. simpl in Hd. lia.
    + exact Hx.
    + exact H1m.
    + etransitivity; eassumption.
Qed.

(** ** What the schema pass registers *)

Lemma for_each_ret {A : Type} (P : converter → Prop) (body : A → M unit) l :
  (∀ x, x ∈ l → ∀ s s', body x s = (Ret tt, s') → P s → P s') →
  ∀ s s', for_each body l s = (Ret tt, s') → P s → P s'.
Proof.
  induction l as [|x l IH]; intros Hbody s s' Hrun HP.
  - injection Hrun as <-. exact HP.
  - rewrite for_each_cons in Hrun.
    apply bind_ret_inv in Hrun as ([] & s1 & Hx & Hrun).
    eapply IH; [|exact Hrun|].
    + intros y Hy. apply Hbody. right. exact Hy.
    + eapply Hbody; [left|exact Hx|exact HP].
Qed.

(** In a loop that ran to its end, every element was handled, between
    two states of the run. *)
Lemma for_each_ret_elem {A : Type} (R : relation converter)
    `{!Reflexive R} `{!Transitive R} (body : A → M unit) l :
  (∀ x, x ∈ l → ∀ s r s', body x s = (r, s') → R s s') →
  ∀ s s' x, for_each body l s = (Ret tt, s') → x ∈ l →
    ∃ s1 s2, body x s1 = (Ret tt, s2) ∧ R s s1 ∧ R s2 s'.
Proof.
  induction l as [|y l IH]; intros Hbody s s' x Hrun Hin.
  - inversion Hin.
  - rewrite for_each_cons in Hrun.
    apply bind_ret_inv in Hrun as ([] & sm & Hy & Hrun).
    assert (R s sm) as Hsm by (eapply Hbody; [left|exact Hy]).
    assert (R sm s') as Hms.
    { eapply (for_each_rel R); [|exact Hrun].
      intros z Hz. apply Hbody. right. exact Hz. }
    apply elem_of_cons in Hin as [->|Hin].
    + exists s, sm. split; [exact Hy|]. split; [reflexivity | exact Hms].
    + destruct (IH (λ z Hz, Hbody z (list_elem_of_further _ _ _ Hz))
                  sm s' x Hrun Hin) as (s1 & s2 & Hb & H1 & H2).
      exists s1, s2. split; [exact Hb|]. split; [|exact H2].
      etransitivity; eassumption.
Qed.

Lemma dict_set_elem {V : Type} (k : string) (v : V) d c x :
  (c, x) ∈ Py.dict_set k v d → (c, x) = (k, v) ∨ (c, x) ∈ d.
Proof.
  induction d as [|[k' v'] d IH]; simpl.
  - intros ->%list_elem_of_singleton. left. reflexivity.
  - destruct (String.eqb k k').
    + intros [->|H]%elem_of_cons; [left; reflexivity|].
      right. right. exact H.
    + intros [->|H]%elem_of_cons; [right; left|].
      destruct (IH H) as [->|H']; [left; reflexivity|]. right. right. exact H'.
Qed.

Lemma partition_step_elem fs : ∀ acc,
  (∀ c v, (c, v) ∈ (fold_left partition_step fs acc).1 →
     (c, v) ∈ acc.1
     ∨ ∃ key, (key, v) ∈ fs ∧ c = _sanitize_name key
              ∧ isinstance_dict v || isinstance_list v = false)
  ∧ (∀ c v, (c, v) ∈ (fold_left partition_step fs acc).2 →
     (c, v) ∈ acc.2
     ∨ ∃ key, (key, v) ∈ fs ∧ c = _sanitize_name key
              ∧ isinstance_dict v || isinstance_list v = true).
Proof.
  induction fs as [|[key value] fs IH]; intros [sd nd].
  - simpl. split; intros c v H; left; exact H.
  - cbn [fold_left].
    assert (partition_step (sd, nd) (key, value) =
            if isinstance_dict value || isinstance_list value
            then (sd, Py.dict_set (_sanitize_name key) value nd)
            else (Py.dict_set (_sanitize_name key) value sd, nd)) as ->
      by reflexivity.
    destruct (isinstance_dict value || isinstance_list value) eqn:Hc;
      (match goal with |- context [fold_left _ _ ?acc] =>
         destruct (IH acc) as [IH1 IH2] end);
      split; intros c v H.
    + destruct (IH1 c v H) as [H'|(k & Hk & -> & Ht)]; [left; exact H'|].
      right. exists k. split; [right; exact Hk|]. split; [reflexivity|exact Ht].
    + destruct (IH2 c v H) as [H'|(k & Hk & -> & Ht)].
      * simpl in H'. apply dict_set_elem in H' as [[= -> ->]|H'].
        -- right. exists key. split; [left|]. split; [reflexivity|exact Hc].
        -- left. exact H'.
      * right. exists k. split; [right; exact Hk|].
        split; [reflexivity|exact Ht].
    + destruct (IH1 c v H) as [H'|(k & Hk & -> & Ht)].
      * simpl in H'. apply dict_set_elem in H' as [[= -> ->]|H'].
        -- right. exists key. split; [left|]. split; [reflexivity|exact Hc].
        -- left. exact H'.
      * right. exists k. split; [right; exact Hk|].
        split; [reflexivity|exact Ht].
    + destruct (IH2 c v H) as [H'|(k & Hk & -> & Ht)]; [left; exact H'|].
      right. exists k. split; [right; exact Hk|]. split; [reflexivity|exact Ht].
Qed.

Lemma partition_fields_elem fields :
  (∀ c v, (c, v) ∈ (partition_fields fields).1 →
     ∃ key, (key, v) ∈ fields ∧ c = _sanitize_name key
            ∧ isinstance_dict v || isinstance_list v = false)
  ∧ (∀ c v, (c, v) ∈ (partition_fields fields).2 →
     ∃ key, (key, v) ∈ fields ∧ c = _sanitize_name key
            ∧ isinstance_dict v || isinstance_list v = true).
Proof.
  destruct (partition_step_elem fields ([], [])) as [H1 H2].
  split; intros c v H.
  - destruct (H1 c v H) as [H'|H']; [inversion H' | exact H'].
  - destruct (H2 c v H) as [H'|H']; [inversion H' | exact H'].
Qed.

Lemma known_le_columns k k' (t c : string) :
  known_le k k' → c ∈ default ∅ (k !! t) → c ∈ default ∅ (k' !! t).
Proof.
  intros Hle Hc. destruct (k !! t) as [cols|] eqn:Hk; simpl in Hc.
  - destruct (Hle _ _ Hk) as (cols' & -> & Hsub). simpl. set_solver.
  - set_solver.
Qed.

Lemma ensure_table_registers table_name parent_table self s1 :
  ensure_table table_name parent_table self = (Ret tt, s1) →
  table_name ∈ dom (known_tables s1).
Proof.
  unfold ensure_table. intros He. apply bind_inv in He. simpl in He.
  destruct (bool_decide _) eqn:Hd.
  - injection He as <-. apply bool_decide_eq_true_1 in Hd. exact Hd.
  - apply bind_ret_inv in He as ([] & s0 & [= <-] & He).
    unfold execute in He. simpl in He.
    destruct (Engine.create_table_if_not_exists _ _ _); [|discriminate].
    injection He as <-. simpl. apply elem_of_dom.
    rewrite lookup_insert_eq. eauto.
Qed.

Lemma create_table_exists name cols db db' :
  Engine.create_table_if_not_exists name cols db = Ret db' →
  is_Some (db' !! Engine.fold_case name).
Proof.
  unfold Engine.create_table_if_not_exists. intros H.
  destruct (negb _); [discriminate|].
  destruct (db !! Engine.fold_case name) eqn:Hl.
  - injection H as <-. rewrite Hl. eauto.
  - destruct (bool_decide _); [|discriminate]. injection H as <-.
    rewrite lookup_insert_eq. eauto.
Qed.

Lemma db_le_is_Some db db' (key : string) :
  db_le db db' → is_Some (db !! key) → is_Some (db' !! key).
Proof.
  intros [Hle _] [tb Htb]. destruct (Hle _ _ Htb) as (tb' & -> & _). eauto.
Qed.

Lemma ensure_table_exist table_name parent_table self s1 :
  ensure_table table_name parent_table self = (Ret tt, s1) →
  tables_exist self → tables_exist s1.
Proof.
  unfold ensure_table. intros He Hex. apply bind_inv in He. simpl in He.
  destruct (bool_decide _) eqn:Hd.
  - injection He as <-. exact Hex.
  - apply bind_ret_inv in He as ([] & s0 & [= <-] & He).
    unfold execute in He. simpl in He.
    destruct (Engine.create_table_if_not_exists _ _ _) as [db|] eqn:Hc;
      [|discriminate].
    injection He as <-. intros t Ht. simpl in Ht |- *.
    rewrite dom_insert_L in Ht. apply elem_of_union in Ht as [Ht|Ht].
    + apply elem_of_singleton in Ht as ->. eapply create_table_exists. exact Hc.
    + eapply db_le_is_Some; [eapply create_table_le; exact Hc|]. apply Hex, Ht.
Qed.

Lemma try_add_column_exist table_name c ty self s1 :
  try_add_column table_name c ty self = (Ret tt, s1) →
  tables_exist self → tables_exist s1.
Proof.
  unfold try_add_column. intros H Hex.
  destruct (Engine.add_column _ _ _ _) as [db|e] eqn:Ha.
  - injection H as <-. intros t Ht. simpl in Ht |- *.
    rewrite dom_insert_L in Ht. apply elem_of_union in Ht as [Ht|Ht].
    + apply elem_of_singleton in Ht as ->.
      unfold Engine.add_column in Ha. destruct (negb _); [discriminate|].
      destruct (conn self !! Engine.fold_case table_name); [|discriminate].
      destruct (Engine.has_column _ _); [discriminate|]. injection Ha as <-.
      rewrite lookup_insert_eq. eauto.
    + eapply db_le_is_Some; [eapply add_column_le; exact Ha|]. apply Hex, Ht.
  - destruct e as [msg| | | | | |]; try discriminate.
    destruct (mentions_duplicate_column msg); [|discriminate].
    injection H as <-. exact Hex.
Qed.

Lemma create_exist data :
  ∀ table_name parent_table self self',
    _create_table_if_not_exists table_name data parent_table self = (Ret tt, self') →
    tables_exist self → tables_exist self'.
Proof.
  induction data as [data IH] using json_depth_ind.
  intros table_name parent_table self self' H Hex.
  rewrite create_eq in H. apply bind_ret_inv in H as ([] & s1 & He & H).
  apply ensure_table_exist in He; [|exact Hex].
  destruct data as [| | | | |fields|items]; try discriminate.
  eapply (for_each_ret tables_exist); [|exact H|exact He].
  intros [key value] Hin s s' Hf Hs. unfold schema_field in Hf.
  apply bind_inv in Hf. simpl in Hf.
  destruct (bool_decide _); [injection Hf as <-; exact Hs|].
  pose proof (json_depth_field _ _ _ Hin) as Hd.
  destruct (decide _).
  - destruct value as [| | | | |fs|[|first rest]];
      try (injection Hf as <-; exact Hs).
    + eapply IH; [|exact Hf|exact Hs]. exact Hd.
    + destruct first; try (injection Hf as <-; exact Hs).
      eapply IH; [|exact Hf|exact Hs].
      pose proof (json_depth_item (JObject fields0) (JObject fields0 :: rest)
                    ltac:(left)). lia.
  - eapply try_add_column_exist; eassumption.
Qed.

Lemma schema_field_body_grows table_name (kv : string * json) s r s' :
  schema_field _create_table_if_not_exists table_name kv s = (r, s') →
  schema_grows s s'.
Proof.
  destruct kv as [key value]. intros H.
  eapply schema_field_grows; [|exact H]. intros. eapply create_grows. eassumption.
Qed.

Lemma create_registers k' table_name data t :
  represented k' table_name data t →
  ∀ parent_table self self',
    _create_table_if_not_exists table_name data parent_table self = (Ret tt, self') →
    known_le (known_tables self') k' →
    t ∈ dom k'.
Proof.
  induction 1 as [table_name fields
                 |table_name fields key value t Hin Hmask Hdict Hrep IH
                 |table_name fields key first rest t Hin Hmask Hdict Hrep IH];
    intros parent_table self self' H Hle;
    rewrite create_eq in H; apply bind_ret_inv in H as ([] & s1 & He & H).
  - apply ensure_table_registers in He.
    eapply known_dom_le; [exact Hle|].
    eapply known_dom_le; [|exact He].
    eapply (for_each_rel schema_grows) in H; [apply H|].
    intros x _ s r s'. apply schema_field_body_grows.
  - apply (proj2 (partition_fields_elem fields)) in Hin
      as (key0 & Hin & -> & _).
    eapply (for_each_ret_elem schema_grows) in H
      as (sa & sb & Hf & Hsa & Hsb); [| |exact Hin].
    2:{ intros x _ s r s'. apply schema_field_body_grows. }
    pose proof (schema_field_body_grows _ _ _ _ _ Hf) as Hab.
    unfold schema_field in Hf. apply bind_inv in Hf. simpl in Hf.
    destruct (bool_decide _) eqn:Hm.
    { apply bool_decide_eq_true_1 in Hm. exfalso. apply Hmask.
      eapply known_le_columns; [|exact Hm].
      etransitivity; [apply Hab|]. etransitivity; [apply Hsb|exact Hle]. }
    destruct value; try discriminate. simpl in Hf.
    eapply IH; [exact Hf|]. etransitivity; [apply Hsb|exact Hle].
  - apply (proj2 (partition_fields_elem fields)) in Hin
      as (key0 & Hin & -> & _).
    eapply (for_each_ret_elem schema_grows) in H
      as (sa & sb & Hf & Hsa & Hsb); [| |exact Hin].
    2:{ intros x _ s r s'. apply schema_field_body_grows. }
    pose proof (schema_field_body_grows _ _ _ _ _ Hf) as Hab.
    unfold schema_field in Hf. apply bind_inv in Hf. simpl in Hf.
    destruct (bool_decide _) eqn:Hm.
    { apply bool_decide_eq_true_1 in Hm. exfalso. apply Hmask.
      eapply known_le_columns; [|exact Hm].
      etransitivity; [apply Hab|]. etransitivity; [apply Hsb|exact Hle]. }
    destruct first; try discriminate. simpl in Hf.
    eapply IH; [exact Hf|]. etransitivity; [apply Hsb|exact Hle].
Qed.

Lemma table_rows_grows self self' t :
  schema_grows self self' → table_rows self' t = table_rows self t.
Proof.
  intros (_ & [Hle Hnew] & _). unfold table_rows.
  destruct (conn self !! Engine.fold_case t) as [tb|] eqn:Hb.
  - destruct (Hle _ _ Hb) as (tb' & -> & _ & Hr & _). exact Hr.
  - destruct (conn self' !! Engine.fold_case t) as [tb'|] eqn:Hb'; [|reflexivity].
    eapply Hnew; eassumption.
Qed.

Lemma schema_pass_grows data self r s1 :
  schema_pass data self = (r, s1) → schema_grows self s1.
Proof.
  unfold schema_pass. intros H. apply bind_inv in H. simpl in H.
  eapply (for_each_rel schema_grows); [|exact H].
  intros x _ s r0 s' Hx. eapply create_grows. exact Hx.
Qed.

Lemma for_each_numbered_total {A : Type} (body : nat → A → M unit) :
  (∀ n x s, ∃ s', body n x s = (Ret tt, s')) →
  ∀ l n s, ∃ s', for_each_numbered body n l s = (Ret tt, s').
Proof.
  intros Hbody. induction l as [|x l IH]; intros n s.
  - exists s. reflexivity.
  - destruct (Hbody n x s) as (s1 & H1). destruct (IH (S n) s1) as (s' & H').
    exists s'. simpl. unfold mbind, M_bind. rewrite H1. exact H'.
Qed.

Lemma log_and_continue_total {A : Type} record (body : M A) s :
  ∃ s', log_and_continue record body s = (Ret tt, s').
Proof.
  unfold log_and_continue. destruct (body s) as [[a|e] s1]; eauto.
Qed.

Lemma write_pass_total data s : ∃ s', write_pass data s = (Ret tt, s').
Proof.
  unfold write_pass, mbind, M_bind, get.
  apply for_each_numbered_total. intros n x s0. apply log_and_continue_total.
Qed.

(** C1 (as the program has it). For array input the schema pass runs over
    every element before any row is written: if it raises, the run raises
    and no table has gained a row; if it completes, no row has been written
    yet, the write pass starts from the state it left, and every table that
    a document's write targets through object fields and through the first
    element of each object array is registered and exists in the database,
    as far as the field's name is not a scalar column of the enclosing
    table in the registry.  Tables needed only by later elements of an
    array are not covered. *)
Theorem schema_pass_before_rows (f : input_file) (data : list json)
    (self : converter) :
  whole f = Some (JArray data) →
  tables_exist self →
  match schema_pass data self with
  | (Raise e, _) =>
      (_process_json_file f self).1 = Raise e
      ∧ ∀ t, table_rows (_process_json_file f self).2 t = table_rows self t
  | (Ret _, s1) =>
      _process_json_file f self = write_pass data s1
      ∧ (∀ t, table_rows s1 t = table_rows self t)
      ∧ ∀ item t,
          item ∈ data →
          represented (known_tables s1) (root_table self) item t →
          t ∈ dom (known_tables s1) ∧ is_Some (conn s1 !! Engine.fold_case t)
  end.
Proof.
  intros Hwhole Hex.
  destruct (schema_pass data self) as [[[]|e] s1] eqn:Hs.
  - split; [|split].
    + unfold _process_json_file. rewrite Hwhole.
      unfold mbind at 1, M_bind at 1. rewrite Hs.
      destruct (write_pass_total data s1) as (s' & ->). reflexivity.
    + intros t. eapply table_rows_grows, schema_pass_grows. exact Hs.
    + intros item t Hin Hrep.
      unfold schema_pass in Hs. apply bind_inv in Hs. simpl in Hs.
      assert (tables_exist s1) as Hex1.
      { eapply (for_each_ret tables_exist); [|exact Hs|exact Hex].
        intros x _ s s' Hx. eapply create_exist. exact Hx. }
      eapply (for_each_ret_elem schema_grows) in Hs
        as (sa & sb & Hc & _ & Hsb); [| |exact Hin].
      2:{ intros x _ s r s' Hx. eapply create_grows. exact Hx. }
      assert (t ∈ dom (known_tables s1)) as Ht.
      { eapply create_registers; [exact Hrep|exact Hc|apply Hsb]. }
      split; [exact Ht | apply Hex1, Ht].
  - assert (_process_json_file f self =
            (Raise e,
             Converter (known_tables s1) (root_table s1) (conn s1)
               (log s1 ++ [match e with
                           | JSONDecodeError => ErrorDecodingJsonFile e
                           | _ => ErrorProcessingJsonFile e
                           end]))) as ->.
    { unfold _process_json_file. rewrite Hwhole.
      unfold mbind, M_bind. rewrite Hs. reflexivity. }
    split; [reflexivity|].
    intros t. apply schema_pass_grows in Hs.
    apply (table_rows_grows _ _ t) in Hs. exact Hs.
Qed.

(** ** The record writer: what an insertion touches *)





#[local] Instance untouched_refl p : Reflexive (untouched p).
Proof. intros s key _. reflexivity. Qed.

#[local] Instance untouched_trans p : Transitive (untouched p).
Proof. intros a b c H1 H2 key Hp. rewrite H2, H1 by exact Hp. reflexivity. Qed.

#[local] Instance same_schema_refl : Reflexive same_schema.
Proof. intros s. repeat split; reflexivity. Qed.

#[local] Instance same_schema_trans : Transitive same_schema.
Proof.
  intros a b c (H1 & H2 & H3) (H4 & H5 & H6).
  split; [congruence|]. split; [congruence|].
  intros key. rewrite H6, H3. reflexivity.
Qed.




Lemma insert_rec_S fuel table_name data parent_id :
  insert_rec (S fuel) table_name data parent_id =
    logged_insert (_sanitize_name table_name) parent_id
      match data with
      | JObject fields =>
          let '(simple_data, nested_data) := partition_fields fields in
          row__id ← insert_row (_sanitize_name table_name) simple_data parent_id;
          for_each
            (insert_nested (insert_rec fuel) (_sanitize_name table_name) row__id)
            nested_data;;
          mret row__id
      | _ => raise AttributeError
      end.
Proof. reflexivity. Qed.












(** ** Counting the rows of the root table *)












Lemma root_row_accepted_eq s s1 item :
  root_table s1 = root_table s →
  root_row_accepted s1 item
  = row_accepted (conn s1) (_sanitize_name (root_table s)) item.
Proof. intros H. unfold root_row_accepted. rewrite H. reflexivity. Qed.


(** ** Child rows *)









(** ** Raising, and the recursion bound *)

















(** ** Null values *)

Lemma dict_set_keys {V : Type} (k : string) (v : V) d (k' : string) :
  k' ∈ (Py.dict_set k v d).*1 ↔ k' = k ∨ k' ∈ d.*1.
Proof.
  induction d as [|[k0 v0] d IH]; simpl.
  - rewrite list_elem_of_singleton. split; [auto|]. intros [H|H]; [exact H|inversion H].
  - destruct (String.eqb_spec k k0) as [->|Hne]; simpl.
    + rewrite !elem_of_cons. tauto.
    + rewrite !elem_of_cons, IH. tauto.
Qed.

Lemma partition_keeps_simple fs : ∀ acc (c : string),
  c ∈ acc.1.*1 → c ∈ (fold_left partition_step fs acc).1.*1.
Proof.
  induction fs as [|[key value] fs IH]; intros [sd nd] c Hc; [exact Hc|].
  cbn [fold_left]. apply IH. unfold partition_step.
  destruct (isinstance_dict value || isinstance_list value); simpl; [exact Hc|].
  apply dict_set_keys. right. exact Hc.
Qed.

Lemma partition_scalar_key fs : ∀ acc key value,
  (key, value) ∈ fs →
  isinstance_dict value || isinstance_list value = false →
  _sanitize_name key ∈ (fold_left partition_step fs acc).1.*1.
Proof.
  induction fs as [|[k v] fs IH]; intros [sd nd] key value Hin Hs;
    [inversion Hin|].
  cbn [fold_left]. apply elem_of_cons in Hin as [[= <- <-]|Hin].
  - apply partition_keeps_simple. unfold partition_step. rewrite Hs. simpl.
    apply dict_set_keys. left. reflexivity.
  - eapply IH; eassumption.
Qed.

(** C10. A value that is neither boolean, integer, real, object nor array
    is TEXT, and null is such a value.  So a null field met while its
    column is unknown declares the column TEXT, later schema calls only
    append columns and never redeclare one, and the writer treats a null
    field as a scalar: it is bound like any other value and stored as
    NULL. *)
Theorem null_is_text :
  (∀ v,
     isinstance_bool v || isinstance_int v || isinstance_float v
     || isinstance_dict v || isinstance_list v = false →
     _get_sqlite_type v = TEXT)
  ∧ _get_sqlite_type JNull = TEXT
  ∧ (∀ rec table_name key self tb,
       _sanitize_name key ∉ known_columns self table_name →
       Engine.valid_ident table_name = true →
       Engine.valid_ident (_sanitize_name key) = true →
       conn self !! Engine.fold_case table_name = Some tb →
       Engine.has_column tb (_sanitize_name key) = false →
       ∃ self',
         schema_field rec table_name (key, JNull) self = (Ret tt, self')
         ∧ table_columns self' table_name
           = Some (Engine.columns tb
                   ++ [(_sanitize_name key, Engine.Declared TEXT)])%list
         ∧ _sanitize_name key ∈ known_columns self' table_name)
  ∧ (∀ table_name data parent_table s r s' t cols,
       _create_table_if_not_exists table_name data parent_table s = (r, s') →
       table_columns s t = Some cols →
       ∃ more, table_columns s' t = Some (cols ++ more)%list)
  ∧ (∀ fields key,
       (key, JNull) ∈ fields →
       _sanitize_name key ∈ (partition_fields fields).1.*1)
  ∧ (∀ fuel table_name key self tb,
       Engine.valid_ident (_sanitize_name table_name) = true →
       Engine.valid_ident (_sanitize_name key) = true →
       conn self !! Engine.fold_case (_sanitize_name table_name) = Some tb →
       Engine.has_column tb (_sanitize_name key) = true →
       ∃ self',
         insert_rec (S fuel) table_name (JObject [(key, JNull)]) None self
         = (Ret (Engine.next_rowid tb), self')
         ∧ table_rows self' (_sanitize_name table_name)
           = (Engine.rows tb
              ++ [(Engine.next_rowid tb,
                   [(_sanitize_name key, Engine.NULL)])])%list).
Proof.
  split; [|split; [|split; [|split; [|split]]]].
  - intros v Hv. destruct v; try discriminate; reflexivity.
  - reflexivity.
  - intros rec table_name key self tb Hk Hvt Hvc Htb Hcol.
    unfold schema_field, mbind, M_bind, get. simpl.
    rewrite bool_decide_eq_false_2 by exact Hk.
    unfold try_add_column, Engine.add_column. rewrite Hvt, Hvc, Htb, Hcol.
    simpl. eexists. split; [reflexivity|]. split.
    + unfold table_columns. simpl. rewrite lookup_insert_eq. reflexivity.
    + unfold known_columns at 1. simpl. rewrite lookup_insert_eq. simpl.
      set_solver.
  - intros table_name data parent_table s r s' t cols Hrun Hcols.
    apply create_grows in Hrun as (_ & [Hle _] & _).
    unfold table_columns in *.
    destruct (conn s !! Engine.fold_case t) as [tb|] eqn:Htb; [|discriminate].
    injection Hcols as <-.
    destruct (Hle _ _ Htb) as (tb' & -> & [more Hmore] & _).
    exists more. simpl. rewrite Hmore. reflexivity.
  - intros fields key Hin. unfold partition_fields.
    eapply partition_scalar_key; [exact Hin | reflexivity].
  - intros fuel table_name key self tb Hvt Hvc Htb Hcol.
    rewrite insert_rec_S.
    unfold logged_insert, mbind, M_bind. simpl.
    unfold execute_insert, Engine.insert. simpl.
    rewrite Hvt, Hvc, Htb, Hcol. simpl.
    eexists. split; [reflexivity|].
    unfold table_rows. simpl. rewrite lookup_insert_eq. reflexivity.
Qed.

(** ** Processing a document again on the database it left *)

Lemma all_chars_app p a b :
  Engine.all_chars p (a +:+ b) = Engine.all_chars p a && Engine.all_chars p b.
Proof.
  induction a as [|c a IH]; [reflexivity|].
  change (String c a +:+ b) with (String c (a +:+ b)). simpl.
  rewrite IH, andb_assoc. reflexivity.
Qed.

Lemma valid_ident_id s :
  Engine.valid_ident s = true → Engine.valid_ident (s +:+ "_id") = true.
Proof.
  destruct s as [|c s]; [discriminate|].
  change (String c s +:+ "_id") with (String c (s +:+ "_id")).
  unfold Engine.valid_ident.
  change (String c (s +:+ "_id")) with (String c s +:+ "_id").
  rewrite all_chars_app. intros [H1 H2]%andb_true_iff.
  rewrite H1, H2. reflexivity.
Qed.

Lemma add_column_ret name col ty db db' :
  Engine.add_column name col ty db = Ret db' →
  Engine.valid_ident name = true ∧ Engine.valid_ident col = true
  ∧ ∃ tb tb', db !! Engine.fold_case name = Some tb
              ∧ db' !! Engine.fold_case name = Some tb'
              ∧ Engine.has_column tb' col = true.
Proof.
  unfold Engine.add_column. intros H.
  destruct (Engine.valid_ident name), (Engine.valid_ident col);
    try discriminate. simpl in H.
  destruct (db !! Engine.fold_case name) as [tb|] eqn:Htb; [|discriminate].
  destruct (Engine.has_column tb col); [discriminate|]. injection H as <-.
  split; [reflexivity|]. split; [reflexivity|].
  eexists tb, _. split; [reflexivity|]. rewrite lookup_insert_eq.
  split; [reflexivity|]. unfold Engine.has_column. simpl.
  rewrite existsb_app. simpl. rewrite String.eqb_refl, orb_true_r.
  reflexivity.
Qed.

Lemma create_table_ret_valid name cols db db' :
  Engine.create_table_if_not_exists name cols db = Ret db' →
  Engine.valid_ident name = true.
Proof.
  unfold Engine.create_table_if_not_exists.
  destruct (Engine.valid_ident name); [reflexivity|]. discriminate.
Qed.

Lemma db_le_cols db db' : db_le db db' → db_cols_le db db'.
Proof.
  intros [Hle _] key tb H. destruct (Hle _ _ H) as (tb' & H' & Hp & _). eauto.
Qed.

Lemma has_column_cols_le db db' key tb c :
  db_cols_le db db' → db !! key = Some tb → Engine.has_column tb c = true →
  ∃ tb', db' !! key = Some tb' ∧ Engine.has_column tb' c = true.
Proof.
  intros Hle Htb Hc. destruct (Hle _ _ Htb) as (tb' & Htb' & Hp).
  exists tb'. split; [exact Htb'|]. eapply has_column_prefix; eassumption.
Qed.

Lemma registry_ok_ensure S table_name parent_table s sa :
  ensure_table table_name parent_table s = (Ret tt, sa) →
  registry_ok S s → registry_ok S sa.
Proof.
  unfold ensure_table. intros He [Ha Hb]. apply bind_inv in He. simpl in He.
  destruct (bool_decide _) eqn:Hd.
  { injection He as <-. split; assumption. }
  apply bool_decide_eq_false_1 in Hd.
  apply bind_ret_inv in He as ([] & s0 & [= <-] & He).
  unfold execute in He. simpl in He.
  destruct (Engine.create_table_if_not_exists _ _ _) as [db|] eqn:Hc;
    [|discriminate].
  injection He as <-.
  pose proof (db_le_cols _ _ (create_table_le _ _ _ _ Hc)) as Hle.
  split.
  - intros t c Hin. unfold known_columns in Hin. simpl in Hin.
    destruct (decide (table_name = t)) as [->|Hne].
    + rewrite lookup_insert_eq in Hin. simpl in Hin. set_solver.
    + rewrite lookup_insert_ne in Hin by exact Hne.
      destruct (Ha t c Hin) as (HS & Hvt & Hvc & tb & Htb & Hcol).
      repeat (split; [assumption|]). simpl.
      eapply has_column_cols_le; eassumption.
  - intros t Ht. simpl in Ht |- *. rewrite dom_insert_L in Ht.
    apply elem_of_union in Ht as [Ht|Ht].
    + apply elem_of_singleton in Ht as ->.
      split; [eapply create_table_ret_valid; exact Hc|].
      eapply create_table_exists. exact Hc.
    + destruct (Hb t Ht) as [Hv [tb Htb]]. split; [exact Hv|].
      destruct (Hle _ _ Htb) as (tb' & -> & _). eauto.
Qed.

Lemma registry_ok_add S table_name c ty s sm :
  try_add_column table_name c ty s = (Ret tt, sm) →
  S c → registry_ok S s →
  registry_ok S sm
  ∧ Engine.valid_ident table_name = true ∧ Engine.valid_ident c = true
  ∧ ∃ tb, conn sm !! Engine.fold_case table_name = Some tb
          ∧ Engine.has_column tb c = true.
Proof.
  unfold try_add_column. intros H HS [Ha Hb].
  destruct (Engine.add_column _ _ _ _) as [db|e] eqn:Hadd.
  - injection H as <-.
    pose proof (db_le_cols _ _ (add_column_le _ _ _ _ _ Hadd)) as Hle.
    apply add_column_ret in Hadd as (Hvt & Hvc & tb & tb' & Htb & Htb' & Hcol).
    split; [split|].
    + intros t c' Hin. unfold known_columns in Hin. simpl in Hin.
      destruct (decide (table_name = t)) as [<-|Hne].
      * rewrite lookup_insert_eq in Hin. simpl in Hin.
        apply elem_of_union in Hin as [Hin|Hin].
        -- destruct (Ha _ _ Hin) as (HS' & Hvt' & Hvc' & tb0 & Htb0 & Hcol0).
           repeat (split; [assumption|]). simpl.
           eapply has_column_cols_le; eassumption.
        -- apply elem_of_singleton in Hin as ->.
           repeat (split; [assumption|]). simpl. eauto.
      * rewrite lookup_insert_ne in Hin by exact Hne.
        destruct (Ha _ _ Hin) as (HS' & Hvt' & Hvc' & tb0 & Htb0 & Hcol0).
        repeat (split; [assumption|]). simpl.
        eapply has_column_cols_le; eassumption.
    + intros t Ht. simpl in Ht |- *. rewrite dom_insert_L in Ht.
      apply elem_of_union in Ht as [Ht|Ht].
      * apply elem_of_singleton in Ht as ->. split; [exact Hvt|]. eauto.
      * destruct (Hb t Ht) as [Hv [tb0 Htb0]]. split; [exact Hv|].
        destruct (Hle _ _ Htb0) as (tb0' & -> & _). eauto.
    + simpl. repeat (split; [assumption|]). eauto.
  - destruct e as [msg| | | | | |]; try discriminate.
    destruct msg; simpl in H; try discriminate. injection H as <-.
    apply add_column_duplicate in Hadd as (Hvt & Hvc & tb & Htb & Hcol).
    split; [split; assumption|]. repeat (split; [assumption|]). eauto.
Qed.

Lemma blank_columns k (t c : string) : blank k → c ∉ default ∅ (k !! t).
Proof.
  intros Hb. destruct (k !! t) as [cols|] eqn:Hk; simpl; [|set_solver].
  rewrite (Hb _ _ Hk). set_solver.
Qed.

Lemma ensure_table_rerun table_name parent_table s2 :
  Engine.valid_ident table_name = true →
  parent_ok parent_table →
  is_Some (conn s2 !! Engine.fold_case table_name) →
  blank (known_tables s2) →
  ∃ s2', ensure_table table_name parent_table s2 = (Ret tt, s2')
         ∧ conn s2' = conn s2 ∧ blank (known_tables s2').
Proof.
  intros Hv Hp [tb Htb] Hblank. unfold ensure_table, mbind, M_bind, get. simpl.
  destruct (bool_decide _) eqn:Hd; [eauto|].
  apply bool_decide_eq_false_1 in Hd.
  unfold execute, Engine.create_table_if_not_exists. simpl.
  rewrite Hv, Htb. simpl.
  assert (forallb (λ col : string * Engine.decl, Engine.valid_ident col.1)
            (if truthy parent_table
             then [(default EmptyString parent_table +:+ "_id", Engine.Declared INTEGER)]
             else []) = true) as ->.
  { unfold parent_ok in Hp. destruct (truthy parent_table); [|reflexivity].
    simpl. rewrite Hp; reflexivity. }
  simpl. eexists. split; [reflexivity|]. split; [reflexivity|]. simpl.
  intros t cols Ht. destruct (decide (table_name = t)) as [->|Hne].
  - rewrite lookup_insert_eq in Ht. congruence.
  - rewrite lookup_insert_ne in Ht by exact Hne. eapply Hblank. exact Ht.
Qed.

Lemma try_add_column_rerun table_name c ty s2 tb :
  Engine.valid_ident table_name = true →
  Engine.valid_ident c = true →
  conn s2 !! Engine.fold_case table_name = Some tb →
  Engine.has_column tb c = true →
  try_add_column table_name c ty s2 = (Ret tt, s2).
Proof.
  intros Hvt Hvc Htb Hcol. unfold try_add_column, Engine.add_column.
  rewrite Hvt, Hvc, Htb, Hcol. reflexivity.
Qed.

Lemma names_ok_field S fields key value :
  names_ok S (JObject fields) → (key, value) ∈ fields → names_ok S value.
Proof.
  intros [H1 H2] Hin. split; intros c Hc.
  - apply H1. eapply name_in_object; eassumption.
  - apply H2. eapply name_in_object; eassumption.
Qed.

Lemma names_ok_first S first rest :
  names_ok S (JArray (first :: rest)) → names_ok S first.
Proof.
  intros [H1 H2]. split; intros c Hc.
  - apply H1. eapply name_in_array; [left|exact Hc].
  - apply H2. eapply name_in_array; [left|exact Hc].
Qed.

Lemma reference_iff value :
  _get_sqlite_type value = REFERENCE
  ↔ isinstance_dict value || isinstance_list value = true.
Proof.
  destruct value; unfold _get_sqlite_type; simpl; split; intros H;
    try reflexivity; discriminate.
Qed.

Lemma reruns_mono (m : M unit) s s' :
  db_cols_le (conn s) (conn s') → reruns m s → reruns m s'.
Proof.
  intros Hle Hr s2 Hle2 Hb. apply Hr; [|exact Hb].
  etransitivity; eassumption.
Qed.

Lemma schema_field_unmasked rec table_name key value s2 :
  blank (known_tables s2) →
  schema_field rec table_name (key, value) s2 =
    (if decide (_get_sqlite_type value = REFERENCE) then
       match value with
       | JObject _ =>
           rec (table_name +:+ "__" +:+ _sanitize_name key) value
             (Some table_name)
       | JArray (first :: _) =>
           match first with
           | JObject _ =>
               rec (table_name +:+ "__" +:+ _sanitize_name key) first
                 (Some table_name)
           | _ => mret tt
           end
       | _ => mret tt
       end
     else try_add_column table_name (_sanitize_name key)
            (_get_sqlite_type value)) s2.
Proof.
  intros Hb. unfold schema_field, mbind, M_bind, get.
  rewrite bool_decide_eq_false_2; [reflexivity|].
  apply blank_columns, Hb.
Qed.

Lemma reruns_ret s : reruns (mret tt) s.
Proof. intros s2 _ Hb. exists s2. repeat split. exact Hb. Qed.

Lemma create_rerun (S : string → Prop) data :
  ∀ table_name parent_table s1 s1',
    names_ok S data →
    _create_table_if_not_exists table_name data parent_table s1 = (Ret tt, s1') →
    registry_ok S s1 →
    parent_ok parent_table →
    registry_ok S s1'
    ∧ reruns (_create_table_if_not_exists table_name data parent_table) s1'.
Proof.
  induction data as [data IH] using json_depth_ind.
  intros table_name parent_table s1 s1' Hnames H Hok Hparent.
  rewrite create_eq in H. apply bind_ret_inv in H as ([] & sa & He & H).
  destruct data as [| | | | |fields|items]; try discriminate.
  set (st := _sanitize_name table_name) in *.
  pose proof (registry_ok_ensure S _ _ _ _ He Hok) as Hoka.
  pose proof (ensure_table_registers _ _ _ _ He) as Hdoma.
  destruct (proj2 Hoka st Hdoma) as [Hvst Hexa].
  assert (parent_ok (Some st)) as Hpst.
  { intros _. simpl. apply valid_ident_id, Hvst. }
  assert (∀ fs, (∀ kv, kv ∈ fs → kv ∈ fields) →
          ∀ sb s', for_each (schema_field _create_table_if_not_exists st) fs sb
                   = (Ret tt, s') →
                   registry_ok S sb →
                   registry_ok S s'
                   ∧ reruns (for_each (schema_field _create_table_if_not_exists st) fs) s')
    as Hloop.
  { induction fs as [|[key value] fs IHfs]; intros Hsub sb s' Hrun Hokb.
    { injection Hrun as <-. split; [exact Hokb|].
      intros s2 _ Hb. exists s2. repeat split. exact Hb. }
    rewrite for_each_cons in Hrun.
    apply bind_ret_inv in Hrun as ([] & sm & Hx & Hrun).
    assert ((key, value) ∈ fields) as Hin by (apply Hsub; left).
    pose proof (json_depth_field _ _ _ Hin) as Hdepth.
    pose proof (names_ok_field _ _ _ _ Hnames Hin) as Hnv.
    assert (registry_ok S sm
            ∧ reruns (schema_field _create_table_if_not_exists st (key, value)) sm)
      as [Hokm Hrer].
    { unfold schema_field in Hx. apply bind_inv in Hx. simpl in Hx.
      destruct (bool_decide _) eqn:Hmask.
      - injection Hx as <-. split; [exact Hokb|].
        apply bool_decide_eq_true_1 in Hmask.
        destruct (proj1 Hokb _ _ Hmask) as (HS & Hvt & Hvc & tb & Htb & Hcol).
        intros s2 Hle Hb. rewrite (schema_field_unmasked _ _ _ _ _ Hb).
        destruct (decide _) as [Href|Href].
        + exfalso. apply reference_iff in Href.
          apply (proj2 Hnames (_sanitize_name key)); [|exact HS].
          eapply name_here; [exact Hin|]. rewrite Href. reflexivity.
        + destruct (has_column_cols_le _ _ _ _ _ Hle Htb Hcol)
            as (tb' & Htb' & Hcol').
          exists s2. split; [|split; [reflexivity|exact Hb]].
          eapply try_add_column_rerun; eassumption.
      - destruct (decide _) as [Href|Href].
        + destruct value as [| | | | |fs'|[|first rest]];
            try (vm_compute in Href; discriminate Href);
            try (injection Hx as <-; split; [exact Hokb|];
                 intros s2 Hle Hb; rewrite (schema_field_unmasked _ _ _ _ _ Hb);
                 exists s2; repeat split; exact Hb).
          * destruct (IH (JObject fs') Hdepth _ _ _ _ Hnv Hx Hokb Hpst)
              as [Hokm Hrer].
            split; [exact Hokm|]. intros s2 Hle Hb.
            rewrite (schema_field_unmasked _ _ _ _ _ Hb). simpl.
            apply Hrer; assumption.
          * destruct first as [| | | | |fs'|];
              try (injection Hx as <-; split; [exact Hokb|];
                   intros s2 Hle Hb; rewrite (schema_field_unmasked _ _ _ _ _ Hb);
                   exists s2; repeat split; exact Hb).
            assert (json_depth (JObject fs') < json_depth (JObject fields))%nat
              as Hd'.
            { pose proof (json_depth_item (JObject fs') (JObject fs' :: rest)
                            ltac:(left)). lia. }
            destruct (IH (JObject fs') Hd' _ _ _ _
                        (names_ok_first _ _ _ Hnv) Hx Hokb Hpst)
              as [Hokm Hrer].
            split; [exact Hokm|]. intros s2 Hle Hb.
            rewrite (schema_field_unmasked _ _ _ _ _ Hb). simpl.
            apply Hrer; assumption.
        + assert (S (_sanitize_name key)) as HS.
          { apply (proj1 Hnames). eapply name_here; [exact Hin|].
            destruct (isinstance_dict value || isinstance_list value) eqn:Hc;
              [|reflexivity].
            exfalso. apply Href, reference_iff, Hc. }
          destruct (registry_ok_add S _ _ _ _ _ Hx HS Hokb)
            as (Hokm & Hvt & Hvc & tb & Htb & Hcol).
          split; [exact Hokm|]. intros s2 Hle Hb.
          rewrite (schema_field_unmasked _ _ _ _ _ Hb).
          destruct (decide _) as [Href'|_]; [contradiction|].
          destruct (has_column_cols_le _ _ _ _ _ Hle Htb Hcol)
            as (tb' & Htb' & Hcol').
          exists s2. split; [|split; [reflexivity|exact Hb]].
          eapply try_add_column_rerun; eassumption. }
    destruct (IHfs (λ kv Hkv, Hsub kv (list_elem_of_further _ _ _ Hkv))
                sm s' Hrun Hokm) as [Hok' Hrest].
    split; [exact Hok'|].
    assert (db_cols_le (conn sm) (conn s')) as Hms.
    { apply db_le_cols.
      eapply (for_each_rel schema_grows) in Hrun; [apply Hrun|].
      intros x _ s r s0. apply schema_field_body_grows. }
    intros s2 Hle Hb. rewrite for_each_cons.
    destruct (Hrer s2) as (s2a & Hra & Hca & Hba);
      [etransitivity; eassumption | exact Hb |].
    destruct (Hrest s2a) as (s2' & Hr' & Hc' & Hb');
      [rewrite Hca; exact Hle | exact Hba |].
    exists s2'. unfold mbind, M_bind. rewrite Hra.
    split; [exact Hr'|]. split; [congruence | exact Hb']. }
  destruct (Hloop fields (λ kv Hkv, Hkv) sa s1' H Hoka) as [Hok' Hrer].
  split; [exact Hok'|].
  assert (db_cols_le (conn sa) (conn s1')) as Has.
  { apply db_le_cols.
    eapply (for_each_rel schema_grows) in H; [apply H|].
    intros x _ s r s0. apply schema_field_body_grows. }
  intros s2 Hle Hb. rewrite create_eq. fold st.
  destruct Hexa as [tba Htba].
  destruct (Has _ _ Htba) as (tb1 & Htb1 & _).
  destruct (Hle _ _ Htb1) as (tb2 & Htb2 & _).
  destruct (ensure_table_rerun st parent_table s2 Hvst Hparent
              (ex_intro _ tb2 Htb2) Hb) as (s2a & Hra & Hca & Hba).
  destruct (Hrer s2a) as (s2' & Hr' & Hc' & Hb');
    [rewrite Hca; exact Hle | exact Hba |].
  exists s2'. unfold mbind, M_bind. rewrite Hra.
  split; [exact Hr'|]. split; [congruence | exact Hb'].
Qed.

(** C5 (as the program has it). ADD COLUMN failing with a duplicate
    column is swallowed and leaves the converter as it was; any other
    failure propagates.  Hence a document whose processing succeeded can be
    processed again with the registry it left (or any later one) without
    raising and without changing registry or database.  Processed again by
    a new converter over the database the first run left, it again does not
    raise and leaves the database unchanged, provided no sanitized name in
    the document serves both a scalar and a composite field. *)
Theorem schema_mutation_idempotent :
  (∀ table_name c ty s,
     Engine.add_column table_name c ty (conn s)
     = Raise (OperationalError duplicate_column_name) →
     try_add_column table_name c ty s = (Ret tt, s))
  ∧ (∀ table_name c ty s e,
       Engine.add_column table_name c ty (conn s) = Raise e →
       e ≠ OperationalError duplicate_column_name →
       try_add_column table_name c ty s = (Raise e, s))
  ∧ (∀ table_name data parent_table s s' s2,
       _create_table_if_not_exists table_name data parent_table s = (Ret tt, s') →
       schema_le s' s2 →
       _create_table_if_not_exists table_name data parent_table s2 = (Ret tt, s2))
  ∧ (∀ root data db s1,
       no_name_clash data →
       _create_table_if_not_exists (root_table (__init__ db root)) data None
         (__init__ db root) = (Ret tt, s1) →
       ∃ s2,
         _create_table_if_not_exists (root_table (__init__ db root)) data None
           (__init__ (conn s1) root) = (Ret tt, s2)
         ∧ conn s2 = conn s1).
Proof.
  split; [|split; [|split]].
  - intros table_name c ty s H. unfold try_add_column. rewrite H. reflexivity.
  - intros table_name c ty s e H Hne. unfold try_add_column. rewrite H.
    destruct e as [msg| | | | | |]; try reflexivity.
    destruct msg; try reflexivity. contradiction.
  - intros table_name data parent_table s s' s2 H Hle.
    eapply create_again; eassumption.
  - intros root data db s1 Hclash H.
    destruct (create_rerun (λ c, field_name true data c) data
                _ None _ _ (conj (λ c Hc, Hc) (λ c Hf Ht, Hclash c Ht Hf)) H)
      as [_ Hrer].
    + split.
      * intros t c Hin. unfold known_columns in Hin. simpl in Hin.
        rewrite lookup_empty in Hin. simpl in Hin. set_solver.
      * intros t Ht. simpl in Ht. rewrite dom_empty_L in Ht. set_solver.
    + intros Ht. discriminate.
    + destruct (Hrer (__init__ (conn s1) root)) as (s2 & Hrun & Hc & _).
      * reflexivity.
      * intros t cols Ht. simpl in Ht. rewrite lookup_empty in Ht.
        discriminate.
      * exists s2. split; [exact Hrun | exact Hc].
Qed.

(** ** Worked examples *)

Lemma tables_exist_fresh : tables_exist fresh.
Proof. intros t Ht. vm_compute in Ht. set_solver. Qed.

Lemma targets_own_eq table_name fields t :
  t = _sanitize_name table_name → write_targets table_name (JObject fields) t.
Proof. intros ->. constructor. Qed.

(** C1, counterexample. On [[{"items": [{"a": 1}, {"b": {"c": 1}}]}]] the
    schema pass completes, the write of the document targets table
    [root__items__b], and that table is neither registered nor created:
    the schema pass saw only the first element of the array.  The write
    fails there with "no such table". *)
Lemma later_element_table_missing :
  (schema_pass [doc_later_table] fresh).1 = Ret tt
  ∧ write_targets (root_table fresh) doc_later_table "root__items__b"
  ∧ known_tables (schema_pass [doc_later_table] fresh).2 !! "root__items__b"
    = None
  ∧ conn (schema_pass [doc_later_table] fresh).2
      !! Engine.fold_case "root__items__b" = None
  ∧ (_insert_data (root_table fresh) doc_later_table None
       (schema_pass [doc_later_table] fresh).2).1
    = Raise (OperationalError no_such_table).
Proof.
  split; [vm_compute; reflexivity|].
  split; [|repeat split; vm_compute; reflexivity].
  eapply (targets_array _ _ "items" (JObject [("a", JInt 1)])
            [JObject [("b", JObject [("c", JInt 1)])]]
            (JObject [("b", JObject [("c", JInt 1)])])).
  - vm_compute. left.
  - reflexivity.
  - right. left.
  - eapply (targets_object _ _ "b" (JObject [("c", JInt 1)])).
    + vm_compute. left.
    + reflexivity.
    + apply targets_own_eq. vm_compute. reflexivity.
Qed.

(** C1, an instance: the array file of one document with an array of two
    like objects. *)
Lemma schema_pass_before_rows_witness :
  whole file_items = Some (JArray [doc_items])
  ∧ tables_exist fresh
  ∧ match schema_pass [doc_items] fresh with
    | (Raise e, _) =>
        (_process_json_file file_items fresh).1 = Raise e
        ∧ ∀ t, table_rows (_process_json_file file_items fresh).2 t
               = table_rows fresh t
    | (Ret _, s1) =>
        _process_json_file file_items fresh = write_pass [doc_items] s1
        ∧ (∀ t, table_rows s1 t = table_rows fresh t)
        ∧ ∀ item t,
            item ∈ [doc_items] →
            represented (known_tables s1) (root_table fresh) item t →
            t ∈ dom (known_tables s1)
            ∧ is_Some (conn s1 !! Engine.fold_case t)
    end.
Proof.
  split; [reflexivity|]. split; [exact tables_exist_fresh|].
  exact (schema_pass_before_rows file_items [doc_items] fresh eq_refl
           tables_exist_fresh).
Defined.

(** C2, the failing input. For [[{"a__b": {"c": 1}}]] the child table
    [root__a__b] is created with the parent reference column [root_id],
    but the writer names the column [root__a_id]: the INSERT into the
    child table fails with "no such column", the child table stays empty
    and the root row stays without its child. *)
Theorem parent_reference_dunder_mismatch :
  table_columns (process_file file_dunder fresh).2 "root__a__b"
  = Some [("row__id", Engine.INTEGER_PRIMARY_KEY_AUTOINCREMENT);
          ("root_id", Engine.Declared INTEGER);
          ("c", Engine.Declared INTEGER)]
  ∧ parent_ref_col "root__a__b" = "root__a_id"
  ∧ table_rows (process_file file_dunder fresh).2 "root" = [(1, [])]
  ∧ table_rows (process_file file_dunder fresh).2 "root__a__b" = []
  ∧ log (process_file file_dunder fresh).2
    = [ErrorInsertingData "root__a__b" (Some 1)
         (OperationalError no_such_column);
       ErrorInsertingData "root" None (OperationalError no_such_column);
       ErrorProcessingItem 1 (OperationalError no_such_column)].
Proof. repeat split; vm_compute; reflexivity. Qed.





(** C5, counterexample. [{"a": {"b": {"y": 1}}, "a__b": 1, "a-_b":
    {"x": 1}}] is processed without failure; processed again by a new
    converter over the database that run left, it again does not fail but
    adds column [x] to table [root__a__b].  In the first run the field
    [a-_b] was skipped, its sanitized name being the scalar column [a__b]
    of the registry; the new registry holds no column. *)
Lemma rerun_adds_column :
  (_create_table_if_not_exists "root" doc_clash None fresh).1 = Ret tt
  ∧ table_columns (_create_table_if_not_exists "root" doc_clash None fresh).2
      "root__a__b"
    = Some [("row__id", Engine.INTEGER_PRIMARY_KEY_AUTOINCREMENT);
            ("root__a_id", Engine.Declared INTEGER);
            ("y", Engine.Declared INTEGER)]
  ∧ (_create_table_if_not_exists "root" doc_clash None
       (__init__ (conn (_create_table_if_not_exists "root" doc_clash None fresh).2)
          "root")).1 = Ret tt
  ∧ table_columns
      (_create_table_if_not_exists "root" doc_clash None
         (__init__ (conn (_create_table_if_not_exists "root" doc_clash None fresh).2)
            "root")).2
      "root__a__b"
    = Some [("row__id", Engine.INTEGER_PRIMARY_KEY_AUTOINCREMENT);
            ("root__a_id", Engine.Declared INTEGER);
            ("y", Engine.Declared INTEGER);
            ("x", Engine.Declared INTEGER)].
Proof. repeat split; vm_compute; reflexivity. Qed.

Lemma no_name_clash_plain : no_name_clash doc_plain.
Proof.
  intros c _ Hf. unfold doc_plain in Hf.
  inversion Hf as [fields key value Hin Hs|fields key value c' Hin Hsub|];
    subst; apply list_elem_of_singleton in Hin; injection Hin as -> ->.
  - discriminate.
  - inversion Hsub.
Qed.

(** C5, an instance: [{"id": 1}] processed twice by one converter, and
    again by a new converter over the database it left. *)
Lemma schema_mutation_idempotent_witness :
  (_create_table_if_not_exists "root" doc_plain None fresh
   = (Ret tt, (_create_table_if_not_exists "root" doc_plain None fresh).2)
   ∧ _create_table_if_not_exists "root" doc_plain None
       (_create_table_if_not_exists "root" doc_plain None fresh).2
     = (Ret tt, (_create_table_if_not_exists "root" doc_plain None fresh).2))
  ∧ no_name_clash doc_plain
  ∧ ∃ s2,
      _create_table_if_not_exists (root_table (__init__ ∅ "root")) doc_plain None
        (__init__ (conn (_create_table_if_not_exists "root" doc_plain None fresh).2)
           "root") = (Ret tt, s2)
      ∧ conn s2 = conn (_create_table_if_not_exists "root" doc_plain None fresh).2.
Proof.
  assert (_create_table_if_not_exists "root" doc_plain None fresh
          = (Ret tt, (_create_table_if_not_exists "root" doc_plain None fresh).2))
    as H by (vm_compute; reflexivity).
  split; [split; [exact H|]|split; [exact no_name_clash_plain|]].
  - exact (proj1 (proj2 (proj2 schema_mutation_idempotent))
             "root" doc_plain None fresh _ _ H (reflexivity _)).
  - exact (proj2 (proj2 (proj2 schema_mutation_idempotent))
             "root" doc_plain ∅ _ no_name_clash_plain H).
Defined.

(** C6, counterexample. The file [ [{}]] starts with a space; its first
    character that is not whitespace is the opening bracket, yet it is read
    line by line: the line is no object, nothing is written.  Read as an
    array it would give the root table one row. *)
Lemma leading_whitespace_read_as_lines :
  first_non_whitespace (content file_leading_space) = Some "["%char
  ∧ process_file file_leading_space = _process_jsonlines_file file_leading_space
  ∧ root_rows (process_file file_leading_space fresh).2 = []
  ∧ root_rows (_process_json_file file_leading_space fresh).2 = [(1, [])].
Proof. repeat split; vm_compute; reflexivity. Qed.


(** C10, an instance: [{"note": null}] met by a converter that knows the
    root table but not the column, then written. *)
Lemma null_is_text_witness :
  (∃ self',
     schema_field _create_table_if_not_exists "root" ("note", JNull)
       (ensure_table "root" None fresh).2 = (Ret tt, self')
     ∧ table_columns self' "root"
       = Some [("row__id", Engine.INTEGER_PRIMARY_KEY_AUTOINCREMENT);
               ("note", Engine.Declared TEXT)]
     ∧ _sanitize_name "note" ∈ known_columns self' "root")
  ∧ (∃ self',
       insert_rec 1 "root" doc_null None (schema_pass [doc_null] fresh).2
       = (Ret 1, self')
       ∧ table_rows self' (_sanitize_name "root")
         = [(1, [(_sanitize_name "note", Engine.NULL)])]).
Proof.
  split.
  - refine (proj1 (proj2 (proj2 null_is_text))
              _create_table_if_not_exists "root" "note"
              (ensure_table "root" None fresh).2
              (Engine.Table
                 [("row__id", Engine.INTEGER_PRIMARY_KEY_AUTOINCREMENT)] [] 1)
              _ eq_refl eq_refl _ eq_refl).
    + vm_compute. set_solver.
    + vm_compute. reflexivity.
  - refine (proj2 (proj2 (proj2 (proj2 (proj2 null_is_text))))
              0%nat "root" "note" (schema_pass [doc_null] fresh).2
              (Engine.Table
                 [("row__id", Engine.INTEGER_PRIMARY_KEY_AUTOINCREMENT);
                  ("note", Engine.Declared TEXT)] [] 1)
              eq_refl eq_refl _ eq_refl).
    vm_compute. reflexivity.
Defined.
